(** * Resume intake and scoring pipeline: a shallow embedding

  The development follows [backend/main.py], [backend/tasks/resume_tasks.py],
  [backend/services/gpt_service.py] and [backend/firebase_service.py]:

  - [PyFloat]      Python floats as IEEE 754 binary64 values and their comparisons;
  - [Categorizer]  [categorize_resume];
  - [PyStr]        the fragment of Python's [str] the pipeline uses;
  - [PyRe]         the fragment of Python's [re] the validator uses;
  - [Validator]    [validate_extracted_data];
  - [NameExtractor] [extract_name_with_patterns] / [extract_name_from_text];
  - [Scorer]       [analyze_resume_with_gpt] / [GPTService.analyze_resume_async];
  - [Ledger]       the token functions over the [user_tokens] collection;
  - [Batch]        [process_single_resume] and [process_resumes];
  - [ValidatedFields], [CategorizerOrder], [ExtractedName], [ScorerFacts],
    [BatchFacts]   further properties of the above;
  - [TokenAccount] [purchase_tokens] and the ledger over a history of requests;
  - [CeleryBatch]  the background task [process_resume_batch];
  - [UserStats]    [FirebaseService.get_user_stats];
  - [SubjectLine]  the subject line search of [send_personalized_emails]. *)

From Stdlib Require Import ZArith Lia Bool List Ascii String.
From Stdlib Require Import Floats.SpecFloat.
From stdpp Require Import base option list gmap strings pretty.

Local Open Scope Z_scope.

(* ------------------------------------------------------------------ *)
(** ** Python floats *)

Module PyFloat.

(** A Python [float] is an IEEE 754 binary64 value: a signed zero, a signed
    infinity, a NaN, or [(-1)^s * m * 2^e] with a 53-bit mantissa for the
    normal numbers. *)
Definition float := spec_float.

(** The literals of the source, in canonical binary64 form. *)
Definition f0_0 : float := S754_zero false.
Definition f4_0 : float := S754_finite false 4503599627370496 (-50).
Definition f5_0 : float := S754_finite false 5629499534213120 (-50).
Definition f7_0 : float := S754_finite false 7881299347898368 (-50).
Definition nan : float := S754_nan.

(** Python's [x >= y], [x < y] on floats: IEEE comparisons, false as soon
    as an operand is a NaN. *)
Definition ge (x y : float) : bool := SFleb y x.
Definition lt (x y : float) : bool := SFltb x y.

Definition is_nan (x : float) : bool :=
  match x with S754_nan => true | _ => false end.

(** [float(n)] for an integer [n]: rounded to the nearest binary64 value,
    ties to even; [None] stands for the [OverflowError] of an integer too
    large for a float. *)
Definition of_int (n : Z) : option float :=
  match binary_normalize 53 1024 n 0 false with
  | S754_infinity _ => None
  | f => Some f
  end.

(** The literals are the binary64 values of 0, 4, 5 and 7. *)
Example literals_are_the_integers :
  of_int 0 = Some f0_0 /\ of_int 4 = Some f4_0
  /\ of_int 5 = Some f5_0 /\ of_int 7 = Some f7_0.
Proof. repeat split; by vm_compute. Qed.

Lemma compare_nan_r x : SFcompare x S754_nan = None.
Proof. by destruct x. Qed.

Lemma compare_cont_swap m1 m2 :
  Pos.compare_cont Eq m2 m1 = CompOpp (Pos.compare_cont Eq m1 m2).
Proof. by rewrite Pos.compare_cont_antisym. Qed.

(** Swapping the operands of a comparison reverses its outcome. *)
Lemma compare_swap x y :
  SFcompare y x = option_map CompOpp (SFcompare x y).
Proof.
  destruct x as [sx|sx| |sx mx ex], y as [sy|sy| |sy my ey]; simpl;
    try reflexivity;
    try (by destruct sx); try (by destruct sy); try (by destruct sx, sy).
  f_equal. destruct sx, sy; simpl; try reflexivity;
    rewrite (Z.compare_antisym ex ey), (compare_cont_swap mx my);
    destruct (ex ?= ey)%Z; simpl; try reflexivity;
    by rewrite ?CompOpp_involutive.
Qed.

(** Below a bound: not at-or-above it, unless the value is a NaN. *)
Lemma lt_iff_not_ge x y :
  lt x y = negb (ge x y) && negb (is_nan x) && negb (is_nan y).
Proof.
  unfold lt, ge, SFltb, SFleb. rewrite (compare_swap x y).
  destruct x as [sx|sx| |sx mx ex], y as [sy|sy| |sy my ey];
    try reflexivity; simpl;
    try (by destruct sx); try (by destruct sy); try (by destruct sx, sy).
  destruct sx, sy; simpl; try reflexivity.
  - destruct (ex ?= ey)%Z; simpl; try reflexivity.
    destruct (Pos.compare_cont Eq mx my); reflexivity.
  - destruct (ex ?= ey)%Z; simpl; try reflexivity.
    destruct (Pos.compare_cont Eq mx my); reflexivity.
Qed.

End PyFloat.

(* ------------------------------------------------------------------ *)
(** ** Categorizer *)

Module Categorizer.
Import PyFloat.

(** The three bucket names the source returns as string literals. *)
Inductive category := selected | considered | rejected.


#[global] Instance category_eq_dec : EqDecision category.
Proof. solve_decision. Defined.

(** [categorize_resume] (main.py and resume_tasks.py, same body). *)
Definition categorize_resume (score : float) : category :=
  if ge score f7_0 then selected
  else if ge score f4_0 then considered
  else rejected.

Lemma ge_nan_l y : ge nan y = false.
Proof. unfold ge, SFleb. by rewrite compare_nan_r. Qed.

Lemma ge_not_nan x y : ge x y = true -> is_nan x = false.
Proof. destruct x; try reflexivity. by rewrite ge_nan_l. Qed.

(** A score at or above 7.0 is at or above 4.0. *)
Lemma ge_7_ge_4 s : ge s f7_0 = true -> ge s f4_0 = true.
Proof.
  unfold ge, SFleb, f7_0, f4_0.
  destruct s as [sg|sg| |sg m e];
    try (destruct sg; intros H; exact H); try (intros H; exact H).
  cbn [SFcompare]. destruct sg; [intros H; exact H|].
  destruct (Z.compare_spec (-50) e) as [E|E|E]; try (intros H; exact H).
  rewrite !Pos.compare_cont_spec.
  destruct (Pos.compare_spec 7881299347898368 m) as [A|A|A],
           (Pos.compare_spec 4503599627370496 m) as [B|B|B];
    cbn [Pos.switch_Eq]; intros H; try reflexivity; try discriminate H.
  - subst m. vm_compute in B. discriminate B.
  - pose proof (Pos.lt_trans _ _ _ A B) as C. vm_compute in C. discriminate C.
Qed.

(** The function is total: it always lands in one of the three buckets,
    and which one is decided by the two threshold tests alone. *)
Lemma categorize_resume_cases s :
  (ge s f7_0 = true /\ categorize_resume s = selected) \/
  (ge s f7_0 = false /\ ge s f4_0 = true /\ categorize_resume s = considered) \/
  (ge s f7_0 = false /\ ge s f4_0 = false /\ categorize_resume s = rejected).
Proof.
  unfold categorize_resume.
  destruct (ge s f7_0); [by left|].
  destruct (ge s f4_0); [right; by left | right; by right].
Qed.

Lemma lt_7_iff s : lt s f7_0 = negb (ge s f7_0) && negb (is_nan s).
Proof. rewrite lt_iff_not_ge. change (is_nan f7_0) with false. apply andb_true_r. Qed.

Lemma lt_4_iff s : lt s f4_0 = negb (ge s f4_0) && negb (is_nan s).
Proof. rewrite lt_iff_not_ge. change (is_nan f4_0) with false. apply andb_true_r. Qed.

(** C1, as stated, fails: a NaN score is put in "rejected" (both threshold
    tests are false on it), although it is not below 4.0. *)
Lemma C1_nan_is_rejected :
  categorize_resume nan = rejected /\ lt nan f4_0 = false.
Proof. split; reflexivity. Qed.

(** C1, amended: for every float score s, [categorize_resume s] is
    "selected" iff s >= 7.0, "considered" iff 4.0 <= s < 7.0, and "rejected"
    iff s < 4.0 or s is a NaN; the function is total and both thresholds
    belong to the upper bucket. *)
Theorem C1_thresholds s :
  (categorize_resume s = selected <-> ge s f7_0 = true)
  /\ (categorize_resume s = considered <->
      ge s f4_0 = true /\ lt s f7_0 = true)
  /\ (categorize_resume s = rejected <->
      lt s f4_0 = true \/ is_nan s = true).
Proof.
  rewrite lt_7_iff, lt_4_iff.
  destruct (categorize_resume_cases s)
    as [[H7 ->] | [(H7 & H4 & ->) | (H7 & H4 & ->)]].
  - pose proof (ge_7_ge_4 _ H7) as H4. pose proof (ge_not_nan _ _ H7) as Hn.
    rewrite H7, H4, Hn. simpl. intuition congruence.
  - pose proof (ge_not_nan _ _ H4) as Hn.
    rewrite H7, H4, Hn. simpl. intuition congruence.
  - rewrite H7, H4. simpl. destruct (is_nan s); simpl; intuition congruence.
Qed.

End Categorizer.

(* ------------------------------------------------------------------ *)
(** ** Python strings *)

Module PyStr.

(** A Python [str] is a sequence of code points.  The model keeps the code
    points U+0000..U+00FF, one [ascii] each, with the classification and
    case mapping Python gives them there. *)
Definition str := list ascii.

Definition lit (s : string) : str := list_ascii_of_string s.

Definition code (c : ascii) : N := N_of_ascii c.
Definition chr (n : N) : ascii := ascii_of_N n.

Definition in_range (lo hi : N) (c : ascii) : bool :=
  ((lo <=? code c) && (code c <=? hi))%N.

Definition is_code (n : N) (c : ascii) : bool := (code c =? n)%N.

(** [c.isspace()]: TAB..CR, FS..US, SPACE, NEL and NBSP. *)
Definition isspace_c (c : ascii) : bool :=
  in_range 9 13 c || in_range 28 32 c || is_code 133 c || is_code 160 c.

(** The ranges [A-Z], [a-z] and [0-9] of the source's patterns; [\d] is
    [0-9] on the modelled code points. *)
Definition ascii_upper (c : ascii) : bool := in_range 65 90 c.
Definition ascii_lower (c : ascii) : bool := in_range 97 122 c.
Definition ascii_letter (c : ascii) : bool := ascii_upper c || ascii_lower c.
Definition digit (c : ascii) : bool := in_range 48 57 c.

(** Upper-case and lower-case code points (general category Lu, property
    Lowercase) and the alphabetic ones, as [str.isupper], [str.islower] and
    [str.isalpha] see them. *)
Definition isupper_c (c : ascii) : bool :=
  ascii_upper c || in_range 192 214 c || in_range 216 222 c.
Definition islower_c (c : ascii) : bool :=
  ascii_lower c || is_code 170 c || is_code 181 c || is_code 186 c
  || in_range 223 246 c || in_range 248 255 c.
Definition iscased_c (c : ascii) : bool := isupper_c c || islower_c c.
Definition isalpha_c (c : ascii) : bool := iscased_c c.

(** [c.lower()]: the upper-case code points move up by 32. *)
Definition lower_c (c : ascii) : ascii :=
  if isupper_c c then chr (code c + 32) else c.

(** The title-case (here: upper-case) mapping of one code point.  U+00DF
    maps to the two letters "Ss"; U+00B5 and U+00FF map outside the modelled
    range and are kept as they are, like the code points without a mapping. *)
Definition title_c (c : ascii) : str :=
  if ascii_lower c || in_range 224 246 c || in_range 248 254 c
  then [chr (code c - 32)]
  else if is_code 223 c then lit "Ss" else [c].

(** [s.lower()], [s.isalpha()], [s.isupper()]. *)
Definition lower (s : str) : str := map lower_c s.

Definition isalpha (s : str) : bool :=
  match s with [] => false | _ => forallb isalpha_c s end.

Definition isupper (s : str) : bool :=
  existsb isupper_c s && negb (existsb islower_c s).

(** [s.title()]: a cased code point is lower-cased when it follows a cased
    one and title-cased otherwise. *)
Fixpoint title_from (prev_cased : bool) (s : str) : str :=
  match s with
  | [] => []
  | c :: s' =>
      (if prev_cased then [lower_c c] else title_c c)
        ++ title_from (iscased_c c) s'
  end.

Definition title (s : str) : str := title_from false s.

(** [s.capitalize()]: first code point title-cased, the rest lower-cased. *)
Definition capitalize (s : str) : str :=
  match s with
  | [] => []
  | c :: s' => title_c c ++ lower s'
  end.

(** [s.strip()]: white space removed at both ends. *)
Fixpoint lstrip (s : str) : str :=
  match s with
  | c :: s' => if isspace_c c then lstrip s' else s
  | [] => []
  end.

Definition rstrip (s : str) : str := rev (lstrip (rev s)).
Definition strip (s : str) : str := rstrip (lstrip s).

(** [s.split()]: the maximal runs of non-space code points, in order;
    [cur] holds the run being read, last code point first. *)
Definition flush (cur : str) (rest : list str) : list str :=
  match cur with [] => rest | _ => rev cur :: rest end.

Fixpoint split_from (cur : str) (s : str) : list str :=
  match s with
  | [] => flush cur []
  | c :: s' =>
      if isspace_c c then flush cur (split_from [] s')
      else split_from (c :: cur) s'
  end.

Definition split (s : str) : list str := split_from [] s.

(** [s.split(sep)] for a one-character separator: every field, empty ones
    included; never an empty list. *)
Fixpoint split_on (sep : ascii) (s : str) : list str :=
  match s with
  | [] => [[]]
  | c :: s' =>
      if Ascii.eqb c sep then [] :: split_on sep s'
      else match split_on sep s' with
           | l :: ls => (c :: l) :: ls
           | [] => [[c]]
           end
  end.

(** [s.split(sep, 1)]: cut at the first separator only. *)
Fixpoint split_once (sep : ascii) (s : str) : list str :=
  match s with
  | [] => [[]]
  | c :: s' =>
      if Ascii.eqb c sep then [[]; s']
      else match split_once sep s' with
           | l :: ls => (c :: l) :: ls
           | [] => [[c]]
           end
  end.

(** [sub in s]. *)
Fixpoint startswith (s p : str) : bool :=
  match p, s with
  | [], _ => true
  | a :: p', b :: s' => Ascii.eqb a b && startswith s' p'
  | _ :: _, [] => false
  end.

Fixpoint contains (s sub : str) : bool :=
  startswith s sub ||
  match s with
  | [] => false
  | _ :: s' => contains s' sub
  end.

(** [s.endswith(suffix)]. *)
Definition endswith (s suffix : str) : bool :=
  startswith (rev s) (rev suffix).

(** [sep.join(parts)]. *)
Fixpoint join (sep : str) (parts : list str) : str :=
  match parts with
  | [] => []
  | [p] => p
  | p :: ps => p ++ sep ++ join sep ps
  end.

(** [s.replace(c, '')] for a one-character [c]. *)
Definition remove_char (c : ascii) (s : str) : str :=
  List.filter (fun x => negb (Ascii.eqb x c)) s.

(** [s == t], and the truth value of a string. *)
Definition eqb (s t : str) : bool := bool_decide (s = t).
Definition truthy (s : str) : bool :=
  match s with [] => false | _ => true end.

Definition newline : ascii := chr 10.

End PyStr.

(* ------------------------------------------------------------------ *)
(** ** Python regular expressions *)

Module PyRe.
Import PyStr.

(** The patterns of the validator are sequences of literal characters and
    of repeated character classes ([[...]+], [[...]{2,}]), closed by [$]. *)
Inductive item :=
| Lit (c : ascii)
| Rep (cls : ascii -> bool) (least : nat).

Record pattern := Pattern { items : list item; dollar : bool }.

(** Where [$] holds: at the end of the string, and just before a newline
    that ends the string. *)
Definition at_dollar (s : str) : bool :=
  match s with
  | [] => true
  | [c] => Ascii.eqb c newline
  | _ => false
  end.

Definition at_end (s : str) : bool :=
  match s with [] => true | _ => false end.

(** A backtracking matcher: [rep] tries every admissible length of a run,
    [k] is what the rest of the pattern accepts. *)
Fixpoint rep (cls : ascii -> bool) (least : nat) (k : str -> bool) (s : str)
  : bool :=
  match least with O => k s | S _ => false end
  || match s with
     | c :: s' => cls c && rep cls (Nat.pred least) k s'
     | [] => false
     end.

Fixpoint run (its : list item) (k : str -> bool) (s : str) : bool :=
  match its with
  | [] => k s
  | Lit c :: its' =>
      match s with
      | a :: s' => Ascii.eqb a c && run its' k s'
      | [] => false
      end
  | Rep cls least :: its' => rep cls least (run its' k) s
  end.

(** [re.match(p, s)] as a truth value: some prefix of [s] matches. *)
Definition re_match (p : pattern) (s : str) : bool :=
  run (items p) (if dollar p then at_dollar else fun _ => true) s.

(** The whole of [s] matches the pattern's items. *)
Definition full_match (p : pattern) (s : str) : bool :=
  run (items p) at_end s.

(** [re.sub('[^...]', '', s)]: every character outside the class goes. *)
Definition keep_class (cls : ascii -> bool) (s : str) : str :=
  List.filter cls s.

(** What the items of a pattern denote. *)
Fixpoint sem (its : list item) (s : str) : Prop :=
  match its with
  | [] => s = []
  | Lit c :: its' => exists s', s = c :: s' /\ sem its' s'
  | Rep cls least :: its' =>
      exists a b, s = a ++ b /\ forallb cls a = true
                  /\ (least <= length a)%nat /\ sem its' b
  end.

Lemma rep_sound cls k s : forall least,
  rep cls least k s = true ->
  exists a b, s = a ++ b /\ forallb cls a = true
              /\ (least <= length a)%nat /\ k b = true.
Proof.
  induction s as [|c s IH]; intros least H; simpl in H.
  - destruct least; [|done]. rewrite orb_false_r in H.
    exists [], []. simpl. repeat split; auto with arith.
  - apply orb_true_iff in H as [H|H].
    + destruct least; [|done]. exists [], (c :: s). simpl.
      repeat split; auto with arith.
    + apply andb_true_iff in H as [Hc H].
      destruct (IH _ H) as (a & b & -> & Ha & Hn & Hk).
      exists (c :: a), b. simpl. rewrite Hc, Ha. repeat split; auto. lia.
Qed.

Lemma rep_complete cls k a b : forall least,
  forallb cls a = true -> (least <= length a)%nat -> k b = true ->
  rep cls least k (a ++ b) = true.
Proof.
  induction a as [|c a IH]; intros least Ha Hn Hk; simpl in *.
  - assert (least = O) as -> by lia. destruct b; simpl; by rewrite Hk.
  - apply andb_true_iff in Ha as [Hc Ha]. rewrite Hc. simpl.
    rewrite (IH (Nat.pred least)); auto; [apply orb_true_r | lia].
Qed.

Lemma run_sound its : forall k s,
  run its k s = true -> exists a b, s = a ++ b /\ sem its a /\ k b = true.
Proof.
  induction its as [|[c|cls least] its IH]; intros k s H; simpl in H.
  - by exists [], s.
  - destruct s as [|x s]; [done|].
    apply andb_true_iff in H as [Hx H]. apply Ascii.eqb_eq in Hx as ->.
    destruct (IH _ _ H) as (a & b & -> & Ha & Hk).
    exists (c :: a), b. simpl. eauto.
  - destruct (rep_sound _ _ _ _ H) as (a & r & -> & Ha & Hn & Hr).
    destruct (IH _ _ Hr) as (a' & b & -> & Ha' & Hk).
    exists (a ++ a'), b. rewrite app_assoc. split; [done|]. split; [|done].
    simpl. by exists a, a'.
Qed.

Lemma run_complete its : forall k a b,
  sem its a -> k b = true -> run its k (a ++ b) = true.
Proof.
  induction its as [|[c|cls least] its IH]; intros k a b Ha Hk; simpl in *.
  - by subst a.
  - destruct Ha as (s' & -> & Hs). simpl.
    rewrite Ascii.eqb_refl. simpl. by apply IH.
  - destruct Ha as (a1 & a2 & -> & Hc & Hn & Hs).
    rewrite <- app_assoc. apply rep_complete; auto.
Qed.

Lemma at_dollar_inv s : at_dollar s = true -> s = [] \/ s = [newline].
Proof.
  destruct s as [|c [|]]; simpl; intros H; auto; [|done].
  right. by apply Ascii.eqb_eq in H as ->.
Qed.

Lemma at_end_inv s : at_end s = true -> s = [].
Proof. by destruct s. Qed.

(** [re.match] with a closing [$]: a full match, followed by nothing or by
    one newline. *)
Lemma re_match_dollar its s :
  re_match (Pattern its true) s = true <->
  exists body, sem its body /\ (s = body \/ s = body ++ [newline]).
Proof.
  unfold re_match; simpl. split.
  - intros H. destruct (run_sound _ _ _ H) as (a & b & -> & Ha & Hb).
    exists a. split; [done|].
    destruct (at_dollar_inv _ Hb) as [-> | ->]; [left; by rewrite app_nil_r | by right].
  - intros (body & Hs & [-> | ->]).
    + rewrite <- (app_nil_r body). by apply run_complete.
    + by apply run_complete.
Qed.

Lemma full_match_sem its s :
  full_match (Pattern its true) s = true <-> sem its s.
Proof.
  unfold full_match; simpl. split.
  - intros H. destruct (run_sound _ _ _ H) as (a & b & -> & Ha & Hb).
    apply at_end_inv in Hb as ->. by rewrite app_nil_r.
  - intros H. rewrite <- (app_nil_r s). by apply run_complete.
Qed.

End PyRe.

(* ------------------------------------------------------------------ *)
(** ** Data validator *)

Module Validator.
Import PyStr PyRe.

(** The dictionary [validated], with its three keys. *)
Record fields := Fields { name : str; email : str; phone : str }.

Definition set_name (v : str) (d : fields) : fields :=
  Fields v (email d) (phone d).
Definition set_email (v : str) (d : fields) : fields :=
  Fields (name d) v (phone d).
Definition set_phone (v : str) (d : fields) : fields :=
  Fields (name d) (email d) v.

Definition one_of (cs : string) (c : ascii) : bool :=
  existsb (Ascii.eqb c) (lit cs).

(** [^[a-zA-Z\s]+$] *)
Definition name_class (c : ascii) : bool := ascii_letter c || isspace_c c.
Definition name_pattern : pattern := Pattern [Rep name_class 1] true.

(** [^[a-zA-Z0-9._%+-]+@[a-zA-Z0-9.-]+\.[a-zA-Z]{2,}$] *)
Definition email_local (c : ascii) : bool :=
  ascii_letter c || digit c || one_of "._%+-" c.
Definition email_domain (c : ascii) : bool :=
  ascii_letter c || digit c || one_of ".-" c.
Definition email_items : list item :=
  [Rep email_local 1; Lit "@"; Rep email_domain 1; Lit "."; Rep ascii_letter 2].
Definition email_pattern : pattern := Pattern email_items true.

(** [[^\d+]], complemented: what [re.sub] leaves in place. *)
Definition phone_class (c : ascii) : bool := digit c || Ascii.eqb c "+".

Definition unknown : str := lit "Unknown".

(** [validate_extracted_data] (main.py and resume_tasks.py, same body). *)
Definition validate_extracted_data (name email phone : str) : fields :=
  let validated := Fields name email phone in
  let validated :=
    if truthy name && negb (eqb name unknown) then
      if re_match name_pattern name
      then set_name (title (strip name)) validated
      else set_name unknown validated
    else validated in
  let validated :=
    if truthy email then
      if re_match email_pattern email
      then set_email (lower (strip email)) validated
      else set_email [] validated
    else validated in
  let validated :=
    if truthy phone then
      let clean_phone := keep_class phone_class phone in
      let digits := length (remove_char "+" clean_phone) in
      if (7 <=? digits)%nat && (digits <=? 15)%nat
      then set_phone clean_phone validated
      else set_phone [] validated
    else validated in
  validated.

(** The validator applied to a field set. *)
Definition validate (f : fields) : fields :=
  validate_extracted_data (name f) (email f) (phone f).


(** What each rule computes from its own field. *)
Definition name_rule (name : str) : str :=
  if truthy name && negb (eqb name unknown) then
    if re_match name_pattern name then title (strip name) else unknown
  else name.

Definition email_rule (email : str) : str :=
  if truthy email then
    if re_match email_pattern email then lower (strip email) else []
  else email.

Definition phone_rule (phone : str) : str :=
  if truthy phone then
    let clean_phone := keep_class phone_class phone in
    let digits := length (remove_char "+" clean_phone) in
    if (7 <=? digits)%nat && (digits <=? 15)%nat then clean_phone else []
  else phone.

(** *** Auxiliary notions for the proofs *)

(** The title-case of a name character, as a single character. *)
Definition tcase (c : ascii) : ascii :=
  match title_c c with [x] => x | _ => c end.

(** No white space in front. *)
Definition head_ok (s : str) : bool :=
  match s with [] => true | c :: _ => negb (isspace_c c) end.

(** [title] on a string of name characters, one character out per
    character in. *)
Fixpoint tmap (prev_cased : bool) (s : str) : str :=
  match s with
  | [] => []
  | c :: s' =>
      (if prev_cased then lower_c c else tcase c) :: tmap (iscased_c c) s'
  end.

(** A string free of white space. *)
Definition nospace (s : str) : bool :=
  forallb (fun c => negb (isspace_c c)) s.

(** A pattern item that admits no white space and is closed under
    lower-casing. *)
Definition item_ok (it : item) : Prop :=
  match it with
  | Lit c => isspace_c c = false /\ lower_c c = c
  | Rep cls _ =>
      forall c, cls c = true -> isspace_c c = false /\ cls (lower_c c) = true
  end.

(** "Alphabetic characters and spaces", with Python's notion of an
    alphabetic character ([str.isalpha]). *)
Definition alphabetic_or_space (c : ascii) : bool :=
  isalpha_c c || isspace_c c.

(** "Jos\u00e9". *)
Definition jose : str := lit "Jos" ++ [chr 233].

Ltac each_char c :=
  destruct c as [[|] [|] [|] [|] [|] [|] [|] [|]].

Lemma validate_by_rule n e p :
  validate_extracted_data n e p
  = Fields (name_rule n) (email_rule e) (phone_rule p).
Proof.
  unfold validate_extracted_data, name_rule, email_rule, phone_rule.
  destruct (truthy n && negb (eqb n unknown)), (re_match name_pattern n),
    (truthy e), (re_match email_pattern e), (truthy p); simpl;
    try reflexivity;
    match goal with |- context [if ?b then _ else _] => by destruct b end.
Qed.

(** *** Character facts, checked on each of the 256 code points *)

Lemma name_class_case c :
  name_class c = true ->
  title_c c = [tcase c]
  /\ name_class (tcase c) = true /\ name_class (lower_c c) = true
  /\ isspace_c (tcase c) = isspace_c c /\ isspace_c (lower_c c) = isspace_c c
  /\ iscased_c (tcase c) = iscased_c c /\ iscased_c (lower_c c) = iscased_c c
  /\ tcase (tcase c) = tcase c /\ lower_c (lower_c c) = lower_c c.
Proof. each_char c; vm_compute; intros H; try discriminate H; by repeat split. Qed.

Lemma email_local_case c :
  email_local c = true ->
  isspace_c c = false /\ email_local (lower_c c) = true.
Proof. each_char c; vm_compute; intros H; try discriminate H; by split. Qed.

Lemma email_domain_case c :
  email_domain c = true ->
  isspace_c c = false /\ email_domain (lower_c c) = true.
Proof. each_char c; vm_compute; intros H; try discriminate H; by split. Qed.

Lemma ascii_letter_case c :
  ascii_letter c = true ->
  isspace_c c = false /\ ascii_letter (lower_c c) = true.
Proof. each_char c; vm_compute; intros H; try discriminate H; by split. Qed.

Lemma lower_c_idem c : lower_c (lower_c c) = lower_c c.
Proof. each_char c; by vm_compute. Qed.

(** *** Stripping *)

Lemma lstrip_head_ok s : head_ok (lstrip s) = true.
Proof.
  induction s as [|c s IH]; simpl; [done|].
  destruct (isspace_c c) eqn:E; [done|]. simpl. by rewrite E.
Qed.

Lemma lstrip_id s : head_ok s = true -> lstrip s = s.
Proof. destruct s as [|c s]; simpl; [done|]. by destruct (isspace_c c). Qed.

Lemma lstrip_suffix s : exists p, s = p ++ lstrip s.
Proof.
  induction s as [|c s [p IH]]; simpl; [by exists []|].
  destruct (isspace_c c); [|by exists []].
  exists (c :: p). simpl. by rewrite <- IH.
Qed.

Lemma head_ok_app s t : s <> [] -> head_ok (s ++ t) = head_ok s.
Proof. by destruct s. Qed.

Lemma strip_head_ok s : head_ok (strip s) = true.
Proof.
  unfold strip, rstrip.
  destruct (lstrip_suffix (rev (lstrip s))) as [p Hp].
  assert (lstrip s = rev (lstrip (rev (lstrip s))) ++ rev p) as E.
  { rewrite <- rev_app_distr, <- Hp. by rewrite rev_involutive. }
  destruct (rev (lstrip (rev (lstrip s)))) as [|c r] eqn:Er; [done|].
  rewrite <- (head_ok_app (c :: r) (rev p)), <- E by done.
  apply lstrip_head_ok.
Qed.

Lemma strip_last_ok s : head_ok (rev (strip s)) = true.
Proof.
  unfold strip, rstrip. rewrite rev_involutive. apply lstrip_head_ok.
Qed.

(** A string with no white space at either end is its own [strip]. *)
Lemma strip_id s :
  head_ok s = true -> head_ok (rev s) = true -> strip s = s.
Proof.
  intros H1 H2. unfold strip, rstrip.
  rewrite (lstrip_id s H1), (lstrip_id _ H2). apply rev_involutive.
Qed.

Lemma strip_idem s : strip (strip s) = strip s.
Proof. apply strip_id; [apply strip_head_ok | apply strip_last_ok]. Qed.

Lemma forallb_lstrip P s : forallb P s = true -> forallb P (lstrip s) = true.
Proof.
  induction s as [|c s IH]; simpl; [done|]. intros H.
  destruct (isspace_c c); [|done].
  apply andb_true_iff in H as [_ H]. by apply IH.
Qed.

Lemma forallb_rev P (s : str) : forallb P (rev s) = forallb P s.
Proof.
  induction s as [|c s IH]; simpl; [done|].
  rewrite forallb_app, IH. simpl. rewrite andb_true_r. apply andb_comm.
Qed.

Lemma forallb_strip P s : forallb P s = true -> forallb P (strip s) = true.
Proof.
  intros H. unfold strip, rstrip. rewrite forallb_rev.
  apply forallb_lstrip. rewrite forallb_rev. by apply forallb_lstrip.
Qed.

(** Whether a string is stripped depends on where its white space is. *)
Lemma head_ok_shape s t :
  map isspace_c s = map isspace_c t -> head_ok s = head_ok t.
Proof. destruct s, t; simpl; try done. by intros [= -> _]. Qed.

Lemma strip_id_shape s t :
  map isspace_c t = map isspace_c s -> strip s = s -> strip t = t.
Proof.
  intros Hm Hs. apply strip_id.
  - rewrite (head_ok_shape t s Hm), <- Hs. apply strip_head_ok.
  - rewrite (head_ok_shape (rev t) (rev s)).
    + rewrite <- Hs. apply strip_last_ok.
    + by rewrite !map_rev, Hm.
Qed.

(** A string free of white space is stripped, also when a newline follows. *)
Lemma head_ok_nospace s :
  forallb (fun c => negb (isspace_c c)) s = true -> head_ok s = true.
Proof. destruct s; simpl; [done|]. by intros [? _]%andb_true_iff. Qed.

Lemma strip_nospace s :
  forallb (fun c => negb (isspace_c c)) s = true -> strip s = s.
Proof.
  intros H. apply strip_id; apply head_ok_nospace; [done|].
  by rewrite forallb_rev.
Qed.

Lemma strip_nospace_newline s :
  forallb (fun c => negb (isspace_c c)) s = true ->
  strip (s ++ [newline]) = s.
Proof.
  intros H. destruct s as [|c s]; [reflexivity|].
  unfold strip, rstrip.
  assert (lstrip ((c :: s) ++ [newline]) = (c :: s) ++ [newline]) as ->.
  { apply lstrip_id. simpl in *. by apply andb_true_iff in H as [-> _]. }
  rewrite rev_app_distr.
  change (rev [newline] ++ rev (c :: s)) with (newline :: rev (c :: s)).
  change (lstrip (newline :: rev (c :: s))) with (lstrip (rev (c :: s))).
  rewrite lstrip_id; [apply rev_involutive|].
  apply head_ok_nospace. by rewrite forallb_rev.
Qed.

(** *** The name rule *)

Lemma title_from_tmap s : forall b,
  forallb name_class s = true -> title_from b s = tmap b s.
Proof.
  induction s as [|c s IH]; intros b H; simpl in *; [done|].
  apply andb_true_iff in H as [Hc H].
  rewrite (IH _ H). destruct (name_class_case c Hc) as (-> & _).
  by destruct b.
Qed.

Lemma tmap_class s : forall b,
  forallb name_class s = true -> forallb name_class (tmap b s) = true.
Proof.
  induction s as [|c s IH]; intros b H; simpl in *; [done|].
  apply andb_true_iff in H as [Hc H]. rewrite (IH _ H), andb_true_r.
  destruct (name_class_case c Hc) as (_ & ? & ? & _). by destruct b.
Qed.

Lemma tmap_shape s : forall b,
  forallb name_class s = true -> map isspace_c (tmap b s) = map isspace_c s.
Proof.
  induction s as [|c s IH]; intros b H; simpl in *; [done|].
  apply andb_true_iff in H as [Hc H]. rewrite (IH _ H). f_equal.
  destruct (name_class_case c Hc) as (_ & _ & _ & ? & ? & _). by destruct b.
Qed.

Lemma tmap_idem s : forall b,
  forallb name_class s = true -> tmap b (tmap b s) = tmap b s.
Proof.
  induction s as [|c s IH]; intros b H; simpl in *; [done|].
  apply andb_true_iff in H as [Hc H].
  destruct (name_class_case c Hc) as (_ & _ & _ & _ & _ & Ht & Hl & Htt & Hll).
  destruct b.
  - by rewrite Hll, Hl, (IH _ H).
  - by rewrite Htt, Ht, (IH _ H).
Qed.

(** The pattern accepts the non-empty strings of name characters. *)
Lemma name_pattern_match s :
  re_match name_pattern s = true <-> s <> [] /\ forallb name_class s = true.
Proof.
  unfold name_pattern. rewrite re_match_dollar. simpl. split.
  - intros (body & (a & b & -> & Ha & Hn & ->) & Hs).
    rewrite app_nil_r in Hs.
    destruct Hs as [-> | ->].
    + split; [by destruct a; simpl in Hn; [lia|] | done].
    + split; [by destruct a|]. by rewrite forallb_app, Ha.
  - intros [Hne H]. exists s. split; [|by left].
    exists s, []. rewrite app_nil_r. repeat split; auto.
    destruct s; simpl; [done | lia].
Qed.

Lemma name_rule_spec n :
  name_rule n = if forallb name_class n then title (strip n) else unknown.
Proof.
  unfold name_rule.
  destruct n as [|c n]; [reflexivity|].
  unfold eqb. case_bool_decide as E.
  - rewrite E. reflexivity.
  - cbn [truthy negb andb]. destruct (forallb name_class (c :: n)) eqn:F.
    + assert (re_match name_pattern (c :: n) = true) as ->; [|done].
      by apply name_pattern_match.
    + destruct (re_match name_pattern (c :: n)) eqn:M; [|done].
      apply name_pattern_match in M as [_ M]. congruence.
Qed.

Lemma name_rule_idem n : name_rule (name_rule n) = name_rule n.
Proof.
  rewrite (name_rule_spec n).
  destruct (forallb name_class n) eqn:F; [|reflexivity].
  pose proof (forallb_strip _ _ F) as Fs.
  unfold title. rewrite (title_from_tmap _ _ Fs).
  rewrite name_rule_spec, (tmap_class _ _ Fs).
  rewrite (strip_id_shape (strip n) (tmap false (strip n))).
  - unfold title. rewrite title_from_tmap by by apply tmap_class.
    by apply tmap_idem.
  - by apply tmap_shape.
  - apply strip_idem.
Qed.

(** *** The email rule *)

Lemma class_ok_run cls a :
  (forall c, cls c = true -> isspace_c c = false /\ cls (lower_c c) = true) ->
  forallb cls a = true ->
  nospace a = true /\ forallb cls (lower a) = true.
Proof.
  intros Hc. unfold nospace. induction a as [|c a IH]; simpl; [done|].
  intros [H1 H2]%andb_true_iff. destruct (Hc _ H1) as [-> ->].
  destruct (IH H2) as [IH1 IH2]. by rewrite IH1, IH2.
Qed.

Lemma sem_lower its : forall s,
  Forall item_ok its -> sem its s ->
  nospace s = true /\ sem its (lower s).
Proof.
  induction its as [|[c|cls least] its IH]; intros s Hok Hs; simpl in Hs.
  - by subst s.
  - destruct Hs as (s' & -> & Hs). inversion Hok as [|? ? Hit Hok']; subst.
    destruct Hit as [Hc1 Hc2].
    destruct (IH _ Hok' Hs) as [IH1 IH2]. split.
    + unfold nospace in *. simpl. by rewrite Hc1, IH1.
    + simpl. rewrite Hc2. by exists (lower s').
  - destruct Hs as (a & b & -> & Ha & Hn & Hs).
    inversion Hok as [|? ? Hc Hok']; subst. simpl in Hc.
    destruct (IH _ Hok' Hs) as [IH1 IH2].
    destruct (class_ok_run _ _ Hc Ha) as [A1 A2]. split.
    + unfold nospace in *. by rewrite forallb_app, A1, IH1.
    + simpl. exists (lower a), (lower b). unfold lower in *.
      rewrite map_app, length_map. by repeat split.
Qed.

Lemma email_items_ok : Forall item_ok email_items.
Proof.
  unfold email_items. repeat apply Forall_cons_2; try apply Forall_nil_2; simpl.
  - apply email_local_case.
  - by vm_compute.
  - apply email_domain_case.
  - by vm_compute.
  - apply ascii_letter_case.
Qed.

Lemma lower_idem s : lower (lower s) = lower s.
Proof.
  unfold lower. rewrite map_map. apply map_ext. intros c. apply lower_c_idem.
Qed.

Lemma sem_email_nonempty body : sem email_items body -> body <> [].
Proof. simpl. intros (a & b & -> & _ & Hn & _). destruct a; simpl in *; [lia|done]. Qed.

(** A full match is lower-cased, with or without a newline after it. *)
Lemma email_rule_full body :
  sem email_items body ->
  email_rule body = lower body /\ email_rule (body ++ [newline]) = lower body.
Proof.
  intros Hs. pose proof (sem_email_nonempty _ Hs) as Hne.
  destruct (sem_lower _ _ email_items_ok Hs) as [Hns _].
  unfold email_rule. split.
  - assert (re_match email_pattern body = true) as ->.
    { apply re_match_dollar. exists body. auto. }
    rewrite (strip_nospace _ Hns). by destruct body.
  - assert (re_match email_pattern (body ++ [newline]) = true) as ->.
    { apply re_match_dollar. exists body. auto. }
    rewrite (strip_nospace_newline _ Hns). by destruct body.
Qed.

(** Whatever passes the rule comes from a full match. *)
Lemma email_rule_cases e :
  email_rule e = [] \/
  exists body, sem email_items body
               /\ (e = body \/ e = body ++ [newline])
               /\ email_rule e = lower body.
Proof.
  destruct (re_match email_pattern e) eqn:M.
  - right. apply re_match_dollar in M as (body & Hs & He).
    exists body. repeat split; auto.
    destruct (email_rule_full _ Hs) as [E1 E2]. by destruct He as [-> | ->].
  - left. unfold email_rule. rewrite M. by destruct e.
Qed.

Lemma email_rule_idem e : email_rule (email_rule e) = email_rule e.
Proof.
  destruct (email_rule_cases e) as [-> | (body & Hs & _ & ->)]; [done|].
  destruct (sem_lower _ _ email_items_ok Hs) as [_ Hl].
  destruct (email_rule_full _ Hl) as [-> _]. apply lower_idem.
Qed.

(** *** The phone rule *)

Lemma keep_class_idem cls s : keep_class cls (keep_class cls s) = keep_class cls s.
Proof.
  unfold keep_class. induction s as [|c s IH]; simpl; [done|].
  destruct (cls c) eqn:E; simpl; [|done]. by rewrite E, IH.
Qed.

Lemma phone_rule_idem p : phone_rule (phone_rule p) = phone_rule p.
Proof.
  unfold phone_rule at 2 3. destruct p as [|c p]; [done|].
  cbn [truthy]. cbv zeta.
  destruct (_ && _) eqn:E; [|done].
  unfold phone_rule. rewrite keep_class_idem. cbv zeta. rewrite E.
  destruct (keep_class phone_class (c :: p)); [done|done].
Qed.

(** *** The validator's contract *)

(** C6, as stated, fails: "Jos\u00e9" consists of alphabetic characters
    only and is its own stripped, title-cased form, yet the validator clears
    it to "Unknown", because the pattern admits the ASCII letters only. *)
Lemma C6_accented_name_is_cleared :
  forallb alphabetic_or_space jose = true
  /\ title (strip jose) = jose
  /\ eqb jose unknown = false
  /\ name (validate_extracted_data jose [] []) = unknown.
Proof. repeat split; by vm_compute. Qed.

(** C6, amended: the name rule maps a name made only of ASCII letters
    (a-z, A-Z) and white-space characters to its stripped, title-cased
    form, and clears every other name to "Unknown". *)
Theorem C6_name_rule n e p :
  name (validate_extracted_data n e p)
  = if forallb name_class n then title (strip n) else unknown.
Proof.
  rewrite validate_by_rule. cbn [name]. apply name_rule_spec.
Qed.

(** C7, as stated, fails: "a@b.co" followed by a newline is not empty and
    does not fully match the pattern, yet it is not cleared: [$] also holds
    just before a final newline, and the address comes out stripped. *)
Lemma C7_trailing_newline_is_kept :
  truthy (lit "a@b.co" ++ [newline]) = true
  /\ full_match email_pattern (lit "a@b.co" ++ [newline]) = false
  /\ email (validate_extracted_data [] (lit "a@b.co" ++ [newline]) [])
     = lit "a@b.co".
Proof. repeat split; by vm_compute. Qed.

(** C7, amended: an email that fully matches the strict pattern, alone or
    followed by one final newline, comes out as the lower-cased match; every
    other email is cleared to the empty string; and the two examples of the
    specification hold. *)
Theorem C7_email_rule n e p :
  (forall body, full_match email_pattern body = true ->
                e = body \/ e = body ++ [newline] ->
                email (validate_extracted_data n e p) = lower body)
  /\ ((forall body, full_match email_pattern body = true ->
                    e <> body /\ e <> body ++ [newline]) ->
      email (validate_extracted_data n e p) = [])
  /\ email (validate_extracted_data n (lit "A.B@Test.COM") p)
     = lit "a.b@test.com"
  /\ email (validate_extracted_data n (lit "not-an-email") p) = [].
Proof.
  rewrite !validate_by_rule. cbn [email]. repeat split.
  - intros body Hb He. apply full_match_sem in Hb.
    destruct (email_rule_full _ Hb) as [E1 E2]. by destruct He as [-> | ->].
  - intros Hno. destruct (email_rule_cases e) as [E | (body & Hs & He & _)];
      [done|].
    apply full_match_sem in Hs. destruct (Hno _ Hs) as [N1 N2].
    by destruct He.
Qed.

(** An address in capitals with a final newline comes out lower-cased and
    without the newline. *)
Lemma C7_email_rule_witness :
  email (validate_extracted_data [] (lit "Jane@X.org" ++ [newline]) [])
  = lit "jane@x.org".
Proof.
  exact (proj1 (C7_email_rule [] (lit "Jane@X.org" ++ [newline]) [])
           (lit "Jane@X.org") eq_refl (or_intror eq_refl)).
Defined.

(** C8: the validator is idempotent; validating an already validated field
    set leaves it unchanged. *)
Theorem C8_validate_idempotent f : validate (validate f) = validate f.
Proof.
  unfold validate. rewrite (validate_by_rule (name f)). cbn [name email phone].
  rewrite validate_by_rule.
  by rewrite name_rule_idem, email_rule_idem, phone_rule_idem.
Qed.

(** C10: each validated field is a function of the same input field only;
    changing the other two inputs never changes it. *)
Theorem C10_fields_independent n e p n' e' p' :
  name (validate_extracted_data n e p) = name (validate_extracted_data n e' p')
  /\ email (validate_extracted_data n e p)
     = email (validate_extracted_data n' e p')
  /\ phone (validate_extracted_data n e p)
     = phone (validate_extracted_data n' e' p).
Proof.
  unfold validate_extracted_data.
  repeat split.
  - destruct (truthy e), (truthy e'), (truthy p), (truthy p');
      repeat match goal with |- context [if ?b then _ else _] => destruct b end;
      reflexivity.
  - destruct (truthy n && _), (truthy n' && _), (truthy e), (truthy p), (truthy p');
      repeat match goal with |- context [if ?b then _ else _] => destruct b end;
      reflexivity.
  - destruct (truthy n && _), (truthy n' && _), (truthy e), (truthy e'), (truthy p);
      repeat match goal with |- context [if ?b then _ else _] => destruct b end;
      reflexivity.
Qed.

End Validator.

(* ------------------------------------------------------------------ *)
(** ** Structural name extraction *)

Module NameExtractor.
Import PyStr.

Definition unknown : str := lit "Unknown".

Definition skip_words : list str :=
  map lit ["resume"; "cv"; "curriculum"; "vitae"; "contact"; "personal";
           "information"; "profile"; "objective"]%string.

Definition label_words : list str :=
  map lit ["phone"; "email"; "address"; "linkedin"; "github";
           "portfolio"]%string.

(** [w in words] for a list of strings. *)
Definition in_list (w : str) (words : list str) : bool := existsb (eqb w) words.

(** [any(word in line.lower() for word in skip_words)] *)
Definition boilerplate (line : str) : bool :=
  existsb (fun word => contains (lower line) word) skip_words.

(** [word[0].isupper() and word.isalpha()]; the words of [split] are never
    empty, so [word[0]] exists. *)
Definition name_word (word : str) : bool :=
  match word with
  | c :: _ => isupper [c] && isalpha word
  | [] => false
  end.

(** [any(word.lower() in [...] for word in words)] *)
Definition has_label (words : list str) : bool :=
  existsb (fun word => in_list (lower word) label_words) words.

Definition space : str := lit " ".

(** The first loop of [extract_name_with_patterns], which is the whole of
    resume_tasks.py's [extract_name_from_text]: [None] when the loop runs
    to its end without returning. *)
Fixpoint scan_lines (lines : list str) : option str :=
  match lines with
  | [] => None
  | line :: rest =>
      let line := strip line in
      if negb (truthy line) then scan_lines rest
      else if boilerplate line then scan_lines rest
      else
        let words := split line in
        if (2 <=? length words)%nat && (length words <=? 4)%nat then
          if forallb name_word words then
            if negb (has_label words) then Some (join space words)
            else scan_lines rest
          else scan_lines rest
        else scan_lines rest
  end.

(** The second loop of main.py's [extract_name_with_patterns]: a name after
    a "name:" label, anywhere in the text. *)
Fixpoint scan_labelled (lines : list str) : option str :=
  match lines with
  | [] => None
  | line :: rest =>
      let line := lower (strip line) in
      if contains line (lit "name:") || contains line (lit "full name:")
         || contains line (lit "candidate name:") then
        let parts := split_once ":" line in
        if (1 <? length parts)%nat then
          let name_part := strip (nth 1 parts []) in
          let words := split name_part in
          if (2 <=? length words)%nat && (length words <=? 4)%nat
          then Some (join space (map capitalize words))
          else scan_labelled rest
        else scan_labelled rest
      else scan_labelled rest
  end.

(** resume_tasks.py *)
Definition extract_name_from_text (text : str) : str :=
  let lines := split_on newline text in
  match scan_lines (firstn 10 lines) with
  | Some name => name
  | None => unknown
  end.

(** main.py *)
Definition extract_name_with_patterns (text : str) : str :=
  let lines := split_on newline text in
  match scan_lines (firstn 10 lines) with
  | Some name => name
  | None =>
      match scan_labelled lines with
      | Some name => name
      | None => unknown
      end
  end.

(** *** The extraction rule in the specification's words *)

(** A candidate line: 2 to 4 white-space separated tokens, each alphabetic
    and capitalized, none of them a contact-label word. *)
Definition name_line (line : str) : bool :=
  let words := split line in
  (2 <=? length words)%nat && (length words <=? 4)%nat
  && forallb name_word words && negb (has_label words).

(** The first candidate among the given lines, empty lines and boilerplate
    lines left out. *)
Definition first_candidate (lines : list str) : option str :=
  List.find name_line
    (List.filter (fun l => truthy l && negb (boilerplate l)) (map strip lines)).

(** The lines inspected according to the specification: the first 10
    non-empty lines of the text. *)
Definition first_nonempty_lines (text : str) : list str :=
  firstn 10 (List.filter truthy (map strip (split_on newline text))).

(** The lines the code inspects: the first 10 lines of the text. *)
Definition first_lines (text : str) : list str :=
  firstn 10 (split_on newline text).

Definition ten_blank_lines_then_a_name : str :=
  repeat newline 10 ++ lit "John Smith".

(** The loop returns the joined tokens of the first candidate line. *)
Lemma scan_lines_first_candidate lines :
  scan_lines lines
  = option_map (fun l => join space (split l)) (first_candidate lines).
Proof.
  unfold first_candidate.
  induction lines as [|line rest IH]; [reflexivity|].
  cbn [scan_lines map List.filter].
  destruct (truthy (strip line)) eqn:T; cbn [negb andb]; [|exact IH].
  destruct (boilerplate (strip line)) eqn:B; cbn [negb]; [exact IH|].
  cbn [List.find]. unfold name_line.
  destruct ((2 <=? length (split (strip line)))%nat
            && (length (split (strip line)) <=? 4)%nat); cbn [andb]; [|exact IH].
  destruct (forallb name_word (split (strip line))); cbn [andb]; [|exact IH].
  destruct (has_label (split (strip line))); cbn [negb]; [exact IH|].
  reflexivity.
Qed.

(** C9, as stated, fails: after ten empty lines, "John Smith" is the first
    non-empty line of the text and a candidate line, but the code, which
    looks at the first ten lines, empty ones included, returns "Unknown". *)
Lemma C9_blank_lines_count :
  first_candidate (first_nonempty_lines ten_blank_lines_then_a_name)
    = Some (lit "John Smith")
  /\ extract_name_from_text ten_blank_lines_then_a_name = unknown
  /\ extract_name_with_patterns ten_blank_lines_then_a_name = unknown.
Proof. repeat split; by vm_compute. Qed.

(** C9, amended: for every resume text, structural name extraction inspects
    the first 10 lines of the text, passes over the empty ones and those
    containing a resume-boilerplate keyword, accepts the first line of 2-4
    white-space separated tokens that are each alphabetic and capitalized and
    none of which is a contact-label word, and returns that line's tokens
    joined by single spaces; first match wins.  Without such a line the
    resume_tasks.py extractor returns "Unknown". *)
Theorem C9_first_candidate_wins text :
  match first_candidate (first_lines text) with
  | Some line =>
      name_line line = true
      /\ extract_name_from_text text = join space (split line)
      /\ extract_name_with_patterns text = join space (split line)
  | None => extract_name_from_text text = unknown
  end.
Proof.
  unfold extract_name_from_text, extract_name_with_patterns, first_lines.
  cbv zeta. rewrite scan_lines_first_candidate.
  destruct (first_candidate _) as [line|] eqn:E; [|reflexivity].
  split; [|by split].
  unfold first_candidate in E. by apply List.find_some in E as [_ ?].
Qed.

End NameExtractor.

(* ------------------------------------------------------------------ *)
(** ** Exceptions *)

Module PyExn.

(** An exception (a subclass of [Exception]): its class and its message. *)
Record exn := Exn { exn_class : string; exn_msg : string }.

(** A computation that may raise: [inl e] is "raised [e]". *)
Definition result (A : Type) : Type := exn + A.

Definition ret {A} (a : A) : result A := inr a.
Definition raise {A} (cls msg : string) : result A := inl (Exn cls msg).

Definition bind {A B} (m : result A) (k : A -> result B) : result B :=
  match m with
  | inl e => inl e
  | inr a => k a
  end.

(** [try: m  except C: h] for the classes [C] picked out by [handles]. *)
Definition try_except {A} (m : result A) (handles : exn -> bool)
    (h : exn -> result A) : result A :=
  match m with
  | inl e => if handles e then h e else inl e
  | inr a => inr a
  end.

(** [try: m  except Exception: h], with a handler that cannot raise. *)
Definition try_except_all {A} (m : result A) (h : exn -> A) : A :=
  match m with
  | inl e => h e
  | inr a => a
  end.

Definition is_class (cls : string) (e : exn) : bool :=
  String.eqb (exn_class e) cls.

End PyExn.

Notation "'let!' x ':=' m 'in' k" := (PyExn.bind m (fun x => k))
  (at level 10, x name, m at level 100, k at level 200).

(* ------------------------------------------------------------------ *)
(** ** Relevance scorer *)

Module Scorer.
Import PyStr PyFloat PyExn.

(** A parsed JSON document, as [json.loads] returns it. *)
#[local] Set Warnings "-register-all".
Inductive json :=
| JNull
| JBool (b : bool)
| JInt (n : Z)
| JFloat (f : float)
| JString (s : str)
| JArray (items : list json)
| JObject (members : gmap string json).

(** The dictionary the scorer returns. *)
Record analysis := Analysis {
  score : float;
  explanation : json;
  strengths : json;
  weaknesses : json
}.

(** The two fallback dictionaries. *)
Definition unable_to_parse : analysis :=
  Analysis f5_0 (JString (lit "Unable to parse detailed analysis"))
           (JArray []) (JArray []).

Definition error_occurred : analysis :=
  Analysis f0_0 (JString (lit "Error occurred during analysis"))
           (JArray []) (JArray []).

(** The reply of the chat-completion endpoint: [message.content] of each
    choice, [None] for a choice without text. *)
Definition response := list (option str).

(** A classifier that answers with text that is not JSON, and a call that
    itself fails with a JSON decoding error (the body of the HTTP reply
    cannot be decoded). *)
Definition chatty_classifier (_ _ : str) : result response :=
  inr [Some (lit "Sure! Here is my assessment.")].
Definition undecodable_call (_ _ : str) : result response :=
  raise "JSONDecodeError" "Expecting value".
Definition no_json (_ : str) : result json :=
  raise "JSONDecodeError" "Expecting value".
Definition no_float (_ : str) : option float := None.

Section WithClassifier.

(** The classifier service, called with the job description and the
    truncated resume text; [json.loads], which returns the parsed value or
    raises: a [JSONDecodeError] on text that is not JSON, and other
    exceptions too (a [RecursionError] on text nested too deeply, say);
    and [float] on a string, with [None] for a [ValueError]. *)
Variable create : str -> str -> result response.
Variable json_loads : str -> result json.
Variable float_of_str : str -> option float.

(** [response.choices[0].message.content.strip()] *)
Definition content_of (r : response) : result str :=
  match r with
  | [] => raise "IndexError" "list index out of range"
  | None :: _ =>
      raise "AttributeError" "'NoneType' object has no attribute 'strip'"
  | Some text :: _ => ret (strip text)
  end.

(** [analysis.get(key, default)]: only a dictionary has [get]. *)
Definition get (v : json) (key : string) (dflt : json) : result json :=
  match v with
  | JObject members => ret (default dflt (members !! key))
  | _ => raise "AttributeError" "object has no attribute 'get'"
  end.

(** [float(x)] *)
Definition to_float (v : json) : result float :=
  match v with
  | JFloat f => ret f
  | JInt n =>
      match of_int n with
      | Some f => ret f
      | None => raise "OverflowError" "int too large to convert to float"
      end
  | JBool b => ret (if b then S754_finite false 4503599627370496 (-52) else f0_0)
  | JString s =>
      match float_of_str s with
      | Some f => ret f
      | None => raise "ValueError" "could not convert string to float"
      end
  | _ => raise "TypeError" "float() argument must be a string or a real number"
  end.

(** The dictionary built from a parsed reply. *)
Definition build (v : json) : result analysis :=
  let! s := get v "score" (JInt 0) in
  let! sc := to_float s in
  let! ex := get v "explanation" (JString (lit "No explanation provided")) in
  let! st := get v "strengths" (JArray []) in
  let! we := get v "weaknesses" (JArray []) in
  ret (Analysis sc ex st we).

Definition is_json_decode_error : exn -> bool := is_class "JSONDecodeError".

(** main.py: the inner [try] catches the parse failure of [json.loads], the
    outer one everything else. *)
Definition analyze_resume_with_gpt (resume_text job_description : str)
  : analysis :=
  try_except_all
    (let! response := create job_description (firstn 3000 resume_text) in
     let! result := content_of response in
     try_except
       (let! parsed := json_loads result in build parsed)
       is_json_decode_error
       (fun _ => ret unable_to_parse))
    (fun _ => error_occurred).

(** gpt_service.py: one [try] with two handlers.  The first handler prints
    the local [result], which is unbound when the call itself raised. *)
Definition analyze_resume_async (resume_text job_description : str)
  : result analysis :=
  match
    (let! response := create job_description (firstn 3000 resume_text) in
     content_of response)
  with
  | inl e =>
      if is_json_decode_error e
      then raise "UnboundLocalError"
                 "cannot access local variable 'result'"
      else ret error_occurred
  | inr result =>
      match (let! parsed := json_loads result in build parsed) with
      | inl e =>
          if is_json_decode_error e then ret unable_to_parse
          else ret error_occurred
      | inr a => ret a
      end
  end.

(** No step after the parse raises a [JSONDecodeError]. *)
Lemma get_not_decode_error v key dflt e :
  get v key dflt = inl e -> is_json_decode_error e = false.
Proof. destruct v; simpl; intros [= <-]; reflexivity. Qed.

Lemma to_float_not_decode_error v e :
  to_float v = inl e -> is_json_decode_error e = false.
Proof.
  destruct v as [ |b|n|f|s|l|m]; simpl; try (intros [= <-]; reflexivity).
  - destruct (of_int n); intros [= <-]; reflexivity.
  - destruct (float_of_str s); intros [= <-]; reflexivity.
Qed.

Lemma build_not_decode_error v e :
  build v = inl e -> is_json_decode_error e = false.
Proof.
  unfold build.
  destruct (get v "score" _) as [e1|s] eqn:G1; simpl.
  { intros [= <-]. by apply get_not_decode_error in G1. }
  destruct (to_float s) as [e2|sc] eqn:F; simpl.
  { intros [= <-]. by apply to_float_not_decode_error in F. }
  destruct (get v "explanation" _) as [e3|ex] eqn:G2; simpl.
  { intros [= <-]. by apply get_not_decode_error in G2. }
  destruct (get v "strengths" _) as [e4|st] eqn:G3; simpl.
  { intros [= <-]. by apply get_not_decode_error in G3. }
  destruct (get v "weaknesses" _) as [e5|we] eqn:G4; simpl.
  { intros [= <-]. by apply get_not_decode_error in G4. }
  done.
Qed.

Lemma content_of_not_decode_error r e :
  content_of r = inl e -> is_json_decode_error e = false.
Proof. destruct r as [|[t|] r]; simpl; intros [= <-]; reflexivity. Qed.

(** When the classifier's reply fails JSON parsing, both scorers return
    the "Unable to parse detailed analysis" record with score 5.0; on any
    other failure (the call raises, the reply carries no text, [json.loads]
    raises something else, the parsed value cannot be read) they return the
    "Error occurred during analysis" record with score 0.0; except that the
    asynchronous scorer, when the call itself raises a JSON decoding error,
    raises [UnboundLocalError] from its handler. *)
Lemma scorer_defaults resume_text job_description :
  let reply := create job_description (firstn 3000 resume_text) in
  (forall r text e,
      reply = inr r -> content_of r = inr text -> json_loads text = inl e ->
      is_json_decode_error e = true ->
      analyze_resume_with_gpt resume_text job_description = unable_to_parse
      /\ analyze_resume_async resume_text job_description
         = inr unable_to_parse)
  /\ (forall r text e,
      reply = inr r -> content_of r = inr text -> json_loads text = inl e ->
      is_json_decode_error e = false ->
      analyze_resume_with_gpt resume_text job_description = error_occurred
      /\ analyze_resume_async resume_text job_description
         = inr error_occurred)
  /\ (forall e,
      reply = inl e ->
      analyze_resume_with_gpt resume_text job_description = error_occurred
      /\ analyze_resume_async resume_text job_description
         = if is_json_decode_error e
           then raise "UnboundLocalError"
                      "cannot access local variable 'result'"
           else inr error_occurred)
  /\ (forall r e,
      reply = inr r -> content_of r = inl e ->
      analyze_resume_with_gpt resume_text job_description = error_occurred
      /\ analyze_resume_async resume_text job_description
         = inr error_occurred)
  /\ (forall r text v e,
      reply = inr r -> content_of r = inr text ->
      json_loads text = inr v -> build v = inl e ->
      analyze_resume_with_gpt resume_text job_description = error_occurred
      /\ analyze_resume_async resume_text job_description
         = inr error_occurred).
Proof.
  intros reply. subst reply.
  unfold analyze_resume_with_gpt, analyze_resume_async.
  split; [|split; [|split; [|split]]].
  - intros r text e -> Hc Hj He. simpl. rewrite Hc. simpl.
    rewrite Hj. simpl. by rewrite He.
  - intros r text e -> Hc Hj He. simpl. rewrite Hc. simpl.
    rewrite Hj. simpl. by rewrite He.
  - intros e ->. simpl. done.
  - intros r e -> Hc. simpl. rewrite Hc. simpl.
    by rewrite (content_of_not_decode_error _ _ Hc).
  - intros r text v e -> Hc Hj Hb. simpl. rewrite Hc. simpl.
    rewrite Hj. simpl. rewrite Hb. simpl.
    by rewrite (build_not_decode_error _ _ Hb).
Qed.

End WithClassifier.

(** A reply that is not JSON gives the "unable to parse" record. *)
Example chatty_reply_is_scored_5 :
  analyze_resume_with_gpt chatty_classifier no_json no_float
    (lit "Jane") (lit "Python") = unable_to_parse
  /\ analyze_resume_async chatty_classifier no_json no_float
       (lit "Jane") (lit "Python") = inr unable_to_parse.
Proof. by split. Qed.

(** C3 fails for the asynchronous scorer: when the call to the classifier
    raises a JSON decoding error, main.py's scorer returns the "Error
    occurred during analysis" record with score 0.0, as the claim says, but
    the scorer of gpt_service.py ends in its first handler, whose [print]
    reads the local [result] before it was ever assigned, and raises
    [UnboundLocalError] instead of returning a record. *)
Theorem C3_async_scorer_raises :
  analyze_resume_with_gpt undecodable_call no_json no_float
    (lit "Jane") (lit "Python") = error_occurred
  /\ analyze_resume_async undecodable_call no_json no_float
       (lit "Jane") (lit "Python")
     = inl (Exn "UnboundLocalError" "cannot access local variable 'result'").
Proof. by split. Qed.

End Scorer.

(* ------------------------------------------------------------------ *)
(** ** Usage ledger *)

Module Ledger.
Import PyExn.

(** A document of the [user_tokens] collection, and an entry of the
    [token_usage] collection.  Time stamps are clock readings. *)
Record token_doc := TokenDoc {
  user_id : string;
  tokens : Z;
  total_used : Z;
  created_at : Z;
  updated_at : Z
}.

Record usage_event := UsageEvent {
  ev_user_id : string;
  ev_tokens_used : Z;
  ev_operation : string;
  ev_created_at : Z
}.

(** The two collections. *)
Record store := Store {
  user_tokens : gmap string token_doc;
  token_usage : list usage_event
}.

(** The calls to the document store in the token functions: the read and
    the write of [initialize_user_tokens], the read of [get_user_tokens],
    and in [use_tokens] the first read, the read after the initialization,
    the update of the balance and the write of the usage event. *)
Inductive site :=
| init_get
| init_set
| read_get
| debit_get
| debit_get_again
| debit_update
| debit_add.

(** What the store does in one request: for each call, the exception it
    raises, or [None] when it goes through.  A call that raises leaves the
    store as it is. *)
Definition faults := site -> option exn.

Definition reliable : faults := fun _ => None.

(** The balance every new owner starts with. *)
Definition initial_doc (now : Z) (uid : string) : token_doc :=
  TokenDoc uid 100 0 now now.

(** Stores and faults for the examples. *)
Definition empty_store : store := Store ∅ [].

Definition three_left : store :=
  Store {[ "u"%string := TokenDoc "u" 3 0 0 0 ]} [].

Definition unavailable : exn := Exn "ServiceUnavailable" "503".

Definition update_fails : faults :=
  fun c => match c with debit_update => Some unavailable | _ => None end.

Definition add_fails : faults :=
  fun c => match c with debit_add => Some unavailable | _ => None end.

Definition read_fails : faults :=
  fun c => match c with read_get => Some unavailable | _ => None end.

Section WithConfiguration.

(** Whether the Firebase service could be imported, the clock, and the
    behaviour of the store during the request. *)
Variable FIREBASE_AVAILABLE : bool.
Variable now : Z.
Variable raises : faults.

Definition initialize_user_tokens (uid : string) (s : store) : bool * store :=
  if negb FIREBASE_AVAILABLE then (true, s)
  else
    match raises init_get with
    | Some _ => (false, s)
    | None =>
        match user_tokens s !! uid with
        | Some _ => (true, s)
        | None =>
            match raises init_set with
            | Some _ => (false, s)
            | None =>
                (true, Store (<[uid := initial_doc now uid]> (user_tokens s))
                             (token_usage s))
            end
        end
    end.

Definition get_user_tokens (uid : string) (s : store) : token_doc * store :=
  if negb FIREBASE_AVAILABLE then (initial_doc now uid, s)
  else
    match raises read_get with
    | Some _ => (initial_doc now uid, s)
    | None =>
        match user_tokens s !! uid with
        | Some doc => (doc, s)
        | None =>
            let '(_, s) := initialize_user_tokens uid s in
            (initial_doc now uid, s)
        end
    end.

(** The part of [use_tokens] after [current_tokens = tokens_doc.to_dict()]:
    the comparison, the update of the balance, the usage event. *)
Definition debit (uid : string) (tokens_used : Z) (operation : string)
    (current_tokens : token_doc) (s : store) : bool * store :=
  if tokens current_tokens <? tokens_used then (false, s)
  else
    let new_balance := tokens current_tokens - tokens_used in
    let new_total_used := total_used current_tokens + tokens_used in
    match raises debit_update with
    | Some _ => (false, s)
    | None =>
        let doc :=
          TokenDoc (user_id current_tokens) new_balance new_total_used
                   (created_at current_tokens) now in
        let s := Store (<[uid := doc]> (user_tokens s)) (token_usage s) in
        let usage_data := UsageEvent uid tokens_used operation now in
        match raises debit_add with
        | Some _ => (false, s)
        | None =>
            (true, Store (user_tokens s) (token_usage s ++ [usage_data]))
        end
    end.

(** Every exception inside the [try] ends in [return False]; that of a
    document still missing after the initialization is the [TypeError] of
    subscripting [None]. *)
Definition use_tokens (uid : string) (tokens_used : Z) (operation : string)
    (s : store) : bool * store :=
  if negb FIREBASE_AVAILABLE then (true, s)
  else
    match raises debit_get with
    | Some _ => (false, s)
    | None =>
        match user_tokens s !! uid with
        | Some current_tokens => debit uid tokens_used operation current_tokens s
        | None =>
            let s := snd (initialize_user_tokens uid s) in
            match raises debit_get_again with
            | Some _ => (false, s)
            | None =>
                match user_tokens s !! uid with
                | Some current_tokens =>
                    debit uid tokens_used operation current_tokens s
                | None => (false, s)
                end
            end
        end
    end.

(** [calculate_tokens_needed]: one token per resume. *)
Definition calculate_tokens_needed (resume_count : Z) : Z := resume_count.

End WithConfiguration.

(** The record a debit acts on: the stored one, or the initial one of an
    owner who has none yet; and the record a debit leaves. *)
Definition held (now : Z) (uid : string) (s : store) (d : token_doc) : Prop :=
  user_tokens s !! uid = Some d
  \/ (user_tokens s !! uid = None /\ d = initial_doc now uid).

Definition debited (now : Z) (amount : Z) (d : token_doc) : token_doc :=
  TokenDoc (user_id d) (tokens d - amount) (total_used d + amount)
           (created_at d) now.

(** The ways [debit] ends. *)
Lemma debit_cases now raises uid amount op d s :
  let r := debit now raises uid amount op d s in
  (tokens d < amount /\ r = (false, s))
  \/ (amount <= tokens d /\ raises debit_update <> None /\ r = (false, s))
  \/ (amount <= tokens d /\ raises debit_update = None
      /\ raises debit_add <> None
      /\ r = (false, Store (<[uid := debited now amount d]> (user_tokens s))
                           (token_usage s)))
  \/ (amount <= tokens d /\ raises debit_update = None
      /\ raises debit_add = None
      /\ r = (true, Store (<[uid := debited now amount d]> (user_tokens s))
                          (token_usage s ++ [UsageEvent uid amount op now]))).
Proof.
  unfold debit, debited. cbv zeta.
  destruct (Z.ltb_spec (tokens d) amount) as [Hlt|Hge]; [by left|].
  right. destruct (raises debit_update) as [e|] eqn:U; [by left|].
  right. destruct (raises debit_add) as [e|] eqn:A; [by left|by right].
Qed.

(** The ways [use_tokens] ends when the Firebase service is there: it does
    nothing and returns false, or it creates the record of a new owner and
    returns false, or it is a [debit] of the record held. *)
Lemma use_tokens_cases now raises uid amount op s :
  let r := use_tokens true now raises uid amount op s in
  r = (false, s)
  \/ (user_tokens s !! uid = None
      /\ r = (false, Store (<[uid := initial_doc now uid]> (user_tokens s))
                           (token_usage s)))
  \/ (exists d, user_tokens s !! uid = Some d
                /\ r = debit now raises uid amount op d s)
  \/ (user_tokens s !! uid = None
      /\ raises init_get = None /\ raises init_set = None
      /\ r = debit now raises uid amount op (initial_doc now uid)
               (Store (<[uid := initial_doc now uid]> (user_tokens s))
                      (token_usage s))).
Proof.
  unfold use_tokens, initialize_user_tokens. cbn [negb].
  destruct (raises debit_get); [by left|].
  destruct (user_tokens s !! uid) as [d|] eqn:L.
  { right. right. left. by exists d. }
  destruct (raises init_get) eqn:G; cbn [snd].
  { rewrite L. destruct (raises debit_get_again); by left. }
  destruct (raises init_set) eqn:S; cbn [snd].
  { rewrite L. destruct (raises debit_get_again); by left. }
  cbn [user_tokens]. rewrite lookup_insert_eq.
  destruct (raises debit_get_again); [right; by left|].
  right. right. right. done.
Qed.

(** With a store that works, a covered debit goes through. *)
Lemma use_tokens_served now raises uid amount op s d :
  (forall c, raises c = None) ->
  held now uid s d -> amount <= tokens d ->
  use_tokens true now raises uid amount op s
  = (true, Store (<[uid := debited now amount d]> (user_tokens s))
                 (token_usage s ++ [UsageEvent uid amount op now])).
Proof.
  intros Hall Hd Hle. apply Z.ltb_ge in Hle.
  unfold use_tokens, initialize_user_tokens, debit. cbn [negb].
  rewrite !Hall. destruct Hd as [L|[L ->]]; rewrite L.
  - by rewrite Hle.
  - cbn [snd user_tokens token_usage]. rewrite lookup_insert_eq.
    cbn [initial_doc tokens] in *. rewrite Hle.
    cbn [user_tokens token_usage]. by rewrite insert_insert_eq.
Qed.

(** C4, as stated, fails.  Without the Firebase service the balance the
    code reports is 100, and a debit of 150 still returns true.  With the
    service and 3 tokens left, a debit of 2 returns false and changes
    nothing when the update of the balance raises; and when the write of
    the usage event raises, it returns false with the balance already
    down to 1 and no usage event. *)
Lemma C4_debit_without_store :
  (tokens (fst (get_user_tokens false 0 reliable "u" empty_store)) = 100
   /\ (100 <? 150) = true
   /\ use_tokens false 0 reliable "u" 150 "resume_screening" empty_store
      = (true, empty_store))
  /\ use_tokens true 1 update_fails "u" 2 "resume_screening" three_left
     = (false, three_left)
  /\ use_tokens true 1 add_fails "u" 2 "resume_screening" three_left
     = (false, Store {[ "u"%string := TokenDoc "u" 1 2 0 1 ]} []).
Proof. repeat split. Qed.

(** C4, amended.  With the Firebase service, for every balance record
    (the initial one for an owner who has none yet), every debit amount and
    whatever the store calls do:
    - when [use_tokens] returns true, the amount was covered, the record
      held has its remaining balance down by the amount, not below zero,
      and its total consumed up by the amount, and one usage event is
      appended;
    - when remaining < amount, it returns false, with the record and the
      usage log as they are (a new owner's record may have been created,
      with its 100 tokens);
    - when the amount is covered and no store call raises, it returns true;
    - when it returns false, no usage event is appended, and the balance is
      as it was, unless it is the write of the usage event that raised;
    - the balance is never taken below zero.
    Without the Firebase service it returns true and changes nothing. *)
Theorem C4_debit now raises uid amount op s :
  let r := use_tokens true now raises uid amount op s in
  (fst r = true ->
   exists d,
     held now uid s d /\ amount <= tokens d /\ 0 <= tokens d - amount
     /\ snd r = Store (<[uid := debited now amount d]> (user_tokens s))
                      (token_usage s ++ [UsageEvent uid amount op now]))
  /\ (forall d, held now uid s d -> tokens d < amount ->
      fst r = false
      /\ token_usage (snd r) = token_usage s
      /\ (snd r = s
          \/ (user_tokens s !! uid = None
              /\ user_tokens (snd r)
                 = <[uid := initial_doc now uid]> (user_tokens s))))
  /\ (forall d, held now uid s d -> amount <= tokens d ->
      (forall c, raises c = None) -> fst r = true)
  /\ (fst r = false ->
      token_usage (snd r) = token_usage s
      /\ (user_tokens (snd r) = user_tokens s
          \/ (user_tokens s !! uid = None
              /\ user_tokens (snd r)
                 = <[uid := initial_doc now uid]> (user_tokens s))
          \/ (raises debit_add <> None
              /\ exists d,
                   held now uid s d /\ amount <= tokens d
                   /\ user_tokens (snd r)
                      = <[uid := debited now amount d]> (user_tokens s))))
  /\ (forall d',
      user_tokens (snd r) !! uid = Some d' ->
      (forall d, user_tokens s !! uid = Some d -> 0 <= tokens d) ->
      0 <= tokens d')
  /\ use_tokens false now raises uid amount op s = (true, s).
Proof.
  intros r. subst r.
  split; [|split; [|split; [|split; [|split]]]]; [| | | | |done].
  - (* a debit that returns true *)
    destruct (use_tokens_cases now raises uid amount op s)
      as [E|[[L E]|[(d & L & E)|(L & G & S & E)]]]; rewrite E; clear E;
      try discriminate.
    + destruct (debit_cases now raises uid amount op d s)
        as [[_ E]|[(_ & _ & E)|[(_ & _ & _ & E)|(Hle & _ & _ & E)]]];
        rewrite E; try discriminate.
      intros _. exists d. split; [by left|]. split; [done|].
      split; [lia|done].
    + destruct (debit_cases now raises uid amount op (initial_doc now uid)
                  (Store (<[uid := initial_doc now uid]> (user_tokens s))
                         (token_usage s)))
        as [[_ E]|[(_ & _ & E)|[(_ & _ & _ & E)|(Hle & _ & _ & E)]]];
        rewrite E; try discriminate.
      intros _. exists (initial_doc now uid). split; [by right|].
      split; [done|]. split; [lia|].
      cbn [snd user_tokens token_usage]. by rewrite insert_insert_eq.
  - (* remaining < amount *)
    intros d Hd Hlt.
    destruct (use_tokens_cases now raises uid amount op s)
      as [E|[[L E]|[(d' & L & E)|(L & G & S & E)]]]; rewrite E; clear E.
    + cbn. by auto.
    + cbn. by auto.
    + assert (d' = d) as -> by (destruct Hd as [L'|[L' _]]; congruence).
      destruct (debit_cases now raises uid amount op d s)
        as [[_ E]|[(? & _)|[(? & _)|(? & _)]]]; try lia.
      rewrite E. cbn. by auto.
    + assert (d = initial_doc now uid) as ->
        by (destruct Hd as [L'|[_ ?]]; congruence).
      destruct (debit_cases now raises uid amount op (initial_doc now uid)
                  (Store (<[uid := initial_doc now uid]> (user_tokens s))
                         (token_usage s)))
        as [[_ E]|[(? & _)|[(? & _)|(? & _)]]]; try lia.
      rewrite E. cbn. by auto.
  - (* covered, and the store works *)
    intros d Hd Hle Hall. by rewrite (use_tokens_served _ _ _ _ _ _ d).
  - (* a debit that returns false *)
    destruct (use_tokens_cases now raises uid amount op s)
      as [E|[[L E]|[(d & L & E)|(L & G & S & E)]]]; rewrite E; clear E.
    + cbn. by auto.
    + cbn. by auto.
    + destruct (debit_cases now raises uid amount op d s)
        as [[_ E]|[(_ & _ & E)|[(Hle & _ & A & E)|(_ & _ & _ & E)]]];
        rewrite E; try discriminate; cbn; intros _; (split; [done|]);
        [by left|by left|].
      right. right. split; [done|]. exists d. split; [by left|done].
    + destruct (debit_cases now raises uid amount op (initial_doc now uid)
                  (Store (<[uid := initial_doc now uid]> (user_tokens s))
                         (token_usage s)))
        as [[_ E]|[(_ & _ & E)|[(Hle & _ & A & E)|(_ & _ & _ & E)]]];
        rewrite E; try discriminate; cbn [fst snd user_tokens token_usage];
        intros _; (split; [done|]); [right; by left|right; by left|].
      right. right. split; [done|]. exists (initial_doc now uid).
      split; [by right|]. split; [done|]. by rewrite insert_insert_eq.
  - (* never below zero *)
    intros d' Hd' Hpos.
    destruct (use_tokens_cases now raises uid amount op s)
      as [E|[[L E]|[(d & L & E)|(L & G & S & E)]]]; rewrite E in Hd';
      clear E.
    + by apply (Hpos d').
    + cbn in Hd'. rewrite lookup_insert_eq in Hd'. by injection Hd' as <-.
    + specialize (Hpos d L).
      destruct (debit_cases now raises uid amount op d s)
        as [[_ E]|[(_ & _ & E)|[(Hle & _ & _ & E)|(Hle & _ & _ & E)]]];
        rewrite E in Hd'; cbn in Hd'; rewrite ?lookup_insert_eq in Hd';
        try (assert (d' = d) as -> by congruence; done);
        injection Hd' as <-; cbn; lia.
    + destruct (debit_cases now raises uid amount op (initial_doc now uid)
                  (Store (<[uid := initial_doc now uid]> (user_tokens s))
                         (token_usage s)))
        as [[_ E]|[(_ & _ & E)|[(Hle & _ & _ & E)|(Hle & _ & _ & E)]]];
        rewrite E in Hd'; cbn in Hd'; rewrite ?lookup_insert_eq in Hd';
        injection Hd' as <-; cbn in *; lia.
Qed.

(** With 3 tokens left, a debit of 5 is refused and nothing changes,
    whatever the store does; a debit of 2 goes through when the store
    works. *)
Lemma C4_debit_witness :
  (fst (use_tokens true 1 add_fails "u" 5 "resume_screening" three_left)
   = false
   /\ token_usage
        (snd (use_tokens true 1 add_fails "u" 5 "resume_screening" three_left))
      = []
   /\ (snd (use_tokens true 1 add_fails "u" 5 "resume_screening" three_left)
       = three_left
       \/ (user_tokens three_left !! "u"%string = None
           /\ user_tokens
                (snd (use_tokens true 1 add_fails "u" 5 "resume_screening"
                        three_left))
              = <[ "u"%string := initial_doc 1 "u" ]>
                  (user_tokens three_left))))
  /\ fst (use_tokens true 1 reliable "u" 2 "resume_screening" three_left)
     = true.
Proof.
  split.
  - apply (proj1 (proj2 (C4_debit 1 add_fails "u" 5 "resume_screening"
                           three_left))
             (TokenDoc "u" 3 0 0 0)); [by left|reflexivity].
  - apply (proj1 (proj2 (proj2 (C4_debit 1 reliable "u" 2 "resume_screening"
                                  three_left)))
             (TokenDoc "u" 3 0 0 0)); [by left|discriminate|reflexivity].
Defined.


End Ledger.

(* ------------------------------------------------------------------ *)
(** ** Batch orchestrator *)

Module Batch.
Import PyStr PyFloat PyExn Categorizer Scorer Ledger.

Definition bytes := list ascii.

(** An uploaded file: its declared name and what reading it gives. *)
Record upload_file := UploadFile { filename : str; read : result bytes }.

(** The candidate record [resume_data]; the fallback record has no
    ["content"] key. *)
Record resume_data := ResumeData {
  id : str;
  name : str;
  email : str;
  phone : str;
  s3_url : option str;
  fileName : str;
  score : float;
  category : Categorizer.category;
  content : option str;
  explanation : json;
  strengths : json;
  weaknesses : json
}.

(** The dictionary [process_single_resume] returns. *)
Record outcome := Outcome {
  success : bool;
  data : resume_data;
  out_category : Categorizer.category
}.

(** What one run of the per-document pipeline meets outside the program:
    the temporary file, the text readers (which return "" rather than
    raise), the two regular-expression searches for the email and the
    phone, the classifier behind name fallback and scoring, and the object
    store (which returns [None] rather than raise). *)
Record collaborators := Collaborators {
  mkstemp : result unit;
  extract_text_from_pdf : bytes -> str;
  extract_text_from_docx : bytes -> str;
  decode_utf8 : bytes -> str;
  extract_email_from_text : str -> str;
  extract_phone_from_text : str -> str;
  name_chat : str -> result response;
  score_chat : str -> str -> result response;
  json_loads : str -> result json;
  float_of_str : str -> option float;
  upload_resume_from_bytes : bytes -> string -> str -> option str
}.

(** The mutable world: the ledger, the two Firestore collections the
    pipeline appends to, and the trace of the documents whose pipeline was
    started. *)
Record world := World {
  ledger : store;
  uploadedFiles : list (string * str);
  resumeData : list (string * resume_data);
  started : list str
}.

Definition set_ledger (l : store) (w : world) : world :=
  World l (uploadedFiles w) (resumeData w) (started w).

(** The truth value of [user_id]: given and not empty. *)
Definition given_user (user_id : option string) : option string :=
  match user_id with
  | Some uid => if String.eqb uid "" then None else Some uid
  | None => None
  end.

Definition truthy_opt (s : option str) : bool :=
  match s with Some t => truthy t | None => false end.

(** [f"resume_{resume_index}"] *)
Definition resume_id (resume_index : nat) : str :=
  lit "resume_" ++ lit (pretty resume_index).

(** [str(e)] of an exception. *)
Definition exn_str (e : exn) : str := lit (exn_msg e).

Section WithConfiguration.

Variable FIREBASE_AVAILABLE S3_AVAILABLE ASYNC_GPT_AVAILABLE : bool.
Variable now : Z.

(** What the document store does during the token check at the head of the
    run, and during the debit at its end. *)
Variable raises_check raises_debit : faults.

(** main.py's [extract_name_from_text]: the structural scan, then the
    classifier; any failure gives "Unknown". *)
Definition extract_name_from_text (c : collaborators) (text : str) : str :=
  try_except_all
    (let name := NameExtractor.extract_name_with_patterns text in
     if truthy name && negb (eqb name NameExtractor.unknown) then ret name
     else
       let! response := name_chat c (firstn 2000 text) in
       let! name := content_of response in
       ret (if truthy name && negb (eqb name NameExtractor.unknown)
            then name else NameExtractor.unknown))
    (fun _ => NameExtractor.unknown).

(** The fallback entry of a document whose pipeline raised. *)
Definition fallback (resume_file : upload_file) (resume_index : nat) (e : exn)
  : outcome :=
  Outcome false
    (ResumeData (resume_id resume_index) (lit "Unknown") [] [] None
       (filename resume_file) f0_0 rejected None
       (JString (lit "Error processing resume: " ++ exn_str e))
       (JArray []) (JArray []))
    rejected.

Definition process_single_resume (c : collaborators) (resume_file : upload_file)
    (job_description : str) (user_id : option string) (resume_index : nat)
    (w : world) : outcome * world :=
  let w := World (ledger w) (uploadedFiles w) (resumeData w)
                 (started w ++ [filename resume_file]) in
  match (let! content := read resume_file in
         let! _ := mkstemp c in
         ret content) with
  | inl e => (fallback resume_file resume_index e, w)
  | inr content =>
      let file_extension :=
        lower (List.last (split_on "." (filename resume_file)) []) in
      let text :=
        if eqb file_extension (lit "pdf") then extract_text_from_pdf c content
        else if eqb file_extension (lit "doc") || eqb file_extension (lit "docx")
        then extract_text_from_docx c content
        else decode_utf8 c content in
      let email := extract_email_from_text c text in
      let name := extract_name_from_text c text in
      let phone := extract_phone_from_text c text in
      let validated_data := Validator.validate_extracted_data name email phone in
      let s3_url :=
        match given_user user_id with
        | Some uid =>
            if S3_AVAILABLE
            then upload_resume_from_bytes c content uid (filename resume_file)
            else None
        | None => None
        end in
      let w :=
        match given_user user_id with
        | Some uid =>
            if FIREBASE_AVAILABLE
            then World (ledger w)
                       (uploadedFiles w ++ [(uid, filename resume_file)])
                       (resumeData w) (started w)
            else w
        | None => w
        end in
      match (if ASYNC_GPT_AVAILABLE
             then analyze_resume_async (score_chat c) (json_loads c)
                    (float_of_str c) text job_description
             else ret (analyze_resume_with_gpt (score_chat c) (json_loads c)
                         (float_of_str c) text job_description)) with
      | inl e => (fallback resume_file resume_index e, w)
      | inr analysis =>
          let score := Scorer.score analysis in
          let category := categorize_resume score in
          let resume_data :=
            ResumeData (resume_id resume_index)
              (Validator.name validated_data) (Validator.email validated_data)
              (Validator.phone validated_data) s3_url (filename resume_file)
              score category (Some text)
              (Scorer.explanation analysis) (Scorer.strengths analysis)
              (Scorer.weaknesses analysis) in
          let w :=
            match given_user user_id with
            | Some uid =>
                if FIREBASE_AVAILABLE
                then World (ledger w) (uploadedFiles w)
                           (resumeData w ++ [(uid, resume_data)]) (started w)
                else w
            | None => w
            end in
          (Outcome true resume_data category, w)
      end
  end.

(** An [HTTPException], and the text [str(e)] the framework gives it. *)
Record http_exception := HTTPException { status_code : Z; detail : str }.

Variable http_exception_str : http_exception -> str.

(** The three category lists of the response. *)
Record results := Results {
  selected_list : list resume_data;
  rejected_list : list resume_data;
  considered_list : list resume_data
}.

Record metadata := Metadata {
  total_uploaded : nat;
  md_job_description : option str;
  processed_at : Z;
  md_user_id : option string;
  tokens_used : Z
}.

Record response := Response { resp_data : results; resp_metadata : metadata }.

(** [results[category].append(d)] *)
Definition append_to (c : Categorizer.category) (d : resume_data) (r : results)
  : results :=
  match c with
  | selected =>
      Results (selected_list r ++ [d]) (rejected_list r) (considered_list r)
  | rejected =>
      Results (selected_list r) (rejected_list r ++ [d]) (considered_list r)
  | considered =>
      Results (selected_list r) (rejected_list r) (considered_list r ++ [d])
  end.

(** The tasks handed to [asyncio.gather] with [return_exceptions=True]: one per
    resume, results in the order of the resumes; [inl e] is a task that
    raised [e].  [env i] is what the pipeline of resume [i] meets.  The
    tasks' effects on the world are taken in the order of the resumes. *)
Fixpoint gather (env : nat -> collaborators) (resumes : list upload_file)
    (index : nat) (final_job_description : str) (user_id : option string)
    (w : world) : list (result outcome) * world :=
  match resumes with
  | [] => ([], w)
  | resume :: rest =>
      let '(result, w) :=
        process_single_resume (env index) resume final_job_description
          user_id index w in
      let '(others, w) :=
        gather env rest (S index) final_job_description user_id w in
      (inr result :: others, w)
  end.

(** The loop that organizes the results by category. *)
Fixpoint organize (results_list : list (result outcome)) (r : results)
  : results :=
  match results_list with
  | [] => r
  | inl _ :: rest => organize rest r
  | inr result :: rest =>
      organize rest
        (if success result
         then append_to (out_category result) (data result) r
         else append_to rejected (data result) r)
  end.

Definition insufficient_tokens (tokens_needed have : Z) : http_exception :=
  HTTPException 402
    (lit "Insufficient tokens. You need " ++ lit (pretty tokens_needed)
     ++ lit " tokens but only have " ++ lit (pretty have)
     ++ lit ". Please purchase more tokens.").

(** The token check at the head of [process_resumes]. *)
Definition preflight (count : nat) (user_id : option string) (w : world)
  : (http_exception + unit) * world :=
  match given_user user_id with
  | Some uid =>
      let tokens_needed := calculate_tokens_needed (Z.of_nat count) in
      let '(user_tokens, l) :=
        get_user_tokens FIREBASE_AVAILABLE now raises_check uid (ledger w) in
      let w := set_ledger l w in
      if tokens user_tokens <? tokens_needed
      then (inl (insufficient_tokens tokens_needed (tokens user_tokens)), w)
      else (inr (), w)
  | None => (inr (), w)
  end.

(** The job description: the text field, or the text of the uploaded
    file when there is one and it can be read. *)
Definition jd_file_text (c : collaborators) (f : upload_file) : result str :=
  let! jd_content := read f in
  let! _ := mkstemp c in
  let lowered := lower (filename f) in
  ret (if endswith lowered (lit ".pdf") then extract_text_from_pdf c jd_content
       else if endswith lowered (lit ".doc") || endswith lowered (lit ".docx")
       then extract_text_from_docx c jd_content
       else decode_utf8 c jd_content).

Definition final_job_description (jd_env : collaborators)
    (job_description : option str) (job_description_file : option upload_file)
  : http_exception + str :=
  let final :=
    match job_description_file with
    | Some f =>
        match jd_file_text jd_env f with
        | inr jd_text => inr (Some jd_text)
        | inl _ =>
            if negb (truthy_opt job_description)
            then inl (HTTPException 400
                   (lit "Failed to process job description file and no text job description provided"))
            else inr job_description
        end
    | None => inr job_description
    end in
  match final with
  | inl e => inl e
  | inr (Some text) =>
      if truthy text then inr text
      else inl (HTTPException 400 (lit "No job description provided"))
  | inr None => inl (HTTPException 400 (lit "No job description provided"))
  end.

(** The outer handler: [raise HTTPException(status_code=500, detail=str(e))]. *)
Definition internal_error (e : http_exception) : http_exception :=
  HTTPException 500 (http_exception_str e).

Definition empty_results : results := Results [] [] [].

Definition process_resumes (env : nat -> collaborators) (jd_env : collaborators)
    (resumes : list upload_file) (job_description : option str)
    (job_description_file : option upload_file) (user_id : option string)
    (w : world) : (http_exception + response) * world :=
  let '(checked, w) := preflight (length resumes) user_id w in
  match checked with
  | inl e => (inl (internal_error e), w)
  | inr _ =>
      match final_job_description jd_env job_description job_description_file
      with
      | inl e => (inl (internal_error e), w)
      | inr final =>
          let '(results_list, w) := gather env resumes 0 final user_id w in
          let results := organize results_list empty_results in
          let '(tokens_used, w) :=
            match given_user user_id with
            | Some uid =>
                let tokens_used :=
                  calculate_tokens_needed (Z.of_nat (length resumes)) in
                let '(_, l) :=
                  use_tokens FIREBASE_AVAILABLE now raises_debit uid
                    tokens_used "resume_screening" (ledger w) in
                (tokens_used, set_ledger l w)
            | None => (0, w)
            end in
          (inr (Response results
                  (Metadata (length resumes) job_description now user_id
                     tokens_used)),
           w)
      end
  end.

(** The number of records in the three lists. *)
Definition total (r : results) : nat :=
  length (selected_list r) + length (considered_list r)
  + length (rejected_list r).

End WithConfiguration.

(** All the records of a response, and the dictionaries of the tasks that
    returned. *)
Definition all_records (r : results) : list resume_data :=
  selected_list r ++ considered_list r ++ rejected_list r.

Definition outcomes (results_list : list (result outcome)) : list outcome :=
  omap (fun x => match x with inr o => Some o | inl _ => None end) results_list.

(** A task that returned, as opposed to one that raised. *)
Definition returned {A} (r : result A) : Prop :=
  match r with inr _ => True | inl _ => False end.

(** *** A concrete run *)

(** [str(e)] as the framework prints it: the status code, then the detail. *)
Definition starlette_str (e : http_exception) : str :=
  lit (pretty (status_code e)) ++ lit ": " ++ detail e.

(** A classifier that scores the resumes mentioning Python with 8 and
    answers every other resume with text that is not JSON. *)
Definition toy_score_chat (job_description text : str) : result Scorer.response :=
  if contains text (lit "Python") then inr [Some (lit "STRONG")]
  else inr [Some (lit "I cannot say.")].

Definition toy_json_loads (text : str) : result json :=
  if eqb text (lit "STRONG")
  then ret (JObject {[ "score"%string := JInt 8 ]})
  else raise "JSONDecodeError" "Expecting value".

Definition toy_collaborators : collaborators :=
  Collaborators (inr ()) (fun _ => []) (fun _ => []) (fun b => b)
    (fun _ => []) (fun _ => [])
    (fun _ => inr [Some (lit "Unknown")])
    toy_score_chat toy_json_loads (fun _ => None)
    (fun _ _ _ => None).

Definition text_file (name : string) (lines : list string) : upload_file :=
  UploadFile (lit name) (inr (join [newline] (map lit lines))).

Definition three_documents : list upload_file :=
  [ text_file "jane.txt" ["Jane Q Public"; "Python, Rocq"];
    text_file "bob.txt" ["Bob Stone"; "Cobol"];
    UploadFile (lit "lost.pdf") (inl (Exn "OSError" "cannot read upload")) ].

Definition five_documents : list upload_file :=
  three_documents
  ++ [text_file "ann.txt" ["Ann Lee"]; text_file "max.txt" ["Max Roe"]].

Definition fresh_world (l : store) : world := World l [] [] [].

Definition toy_run_with (raises_check raises_debit : faults)
    (resumes : list upload_file) (user_id : option string) (l : store)
  : (http_exception + response) * world :=
  process_resumes true false false 1 raises_check raises_debit starlette_str
    (fun _ => toy_collaborators) toy_collaborators resumes
    (Some (lit "Looking for a Python engineer")) None user_id (fresh_world l).

Definition toy_run : list upload_file -> option string -> store ->
                     (http_exception + response) * world :=
  toy_run_with reliable reliable.

(** *** One record per document *)

Section Properties.

Variable FIREBASE_AVAILABLE S3_AVAILABLE ASYNC_GPT_AVAILABLE : bool.
Variable now : Z.
Variable raises_check raises_debit : faults.
Variable http_exception_str : http_exception -> str.

(** Every task returns a dictionary: [process_single_resume] handles its
    own exceptions, so [gather] never hands back an exception. *)
Lemma gather_all_returned env resumes : forall index jd user_id w,
  let results_list :=
    fst (gather FIREBASE_AVAILABLE S3_AVAILABLE ASYNC_GPT_AVAILABLE env
           resumes index jd user_id w) in
  Forall returned results_list /\ length results_list = length resumes.
Proof.
  induction resumes as [|f rest IH]; intros index jd user_id w; simpl.
  - by split.
  - simpl in IH.
    destruct (process_single_resume _ _ _ _ _ _ _ _ _) as [o w1].
    specialize (IH (S index) jd user_id w1).
    destruct (gather _ _ _ env rest (S index) jd user_id w1) as [os w2].
    simpl in *. destruct IH as [IH1 IH2]. split; [|by rewrite IH2].
    by constructor.
Qed.

(** The pipelines were started for exactly the submitted documents. *)
Lemma gather_started env resumes : forall index jd user_id w,
  started (snd (gather FIREBASE_AVAILABLE S3_AVAILABLE ASYNC_GPT_AVAILABLE env
                  resumes index jd user_id w))
  = started w ++ map filename resumes.
Proof.
  induction resumes as [|f rest IH]; intros index jd user_id w; simpl.
  - by rewrite app_nil_r.
  - destruct (process_single_resume _ _ _ _ _ _ _ _ _) as [o w1] eqn:P.
    specialize (IH (S index) jd user_id w1).
    destruct (gather _ _ _ env rest (S index) jd user_id w1) as [os w2].
    simpl in *. rewrite IH.
    assert (started w1 = started w ++ [filename f]) as ->.
    { unfold process_single_resume in P.
      repeat match type of P with
             | context [match ?x with _ => _ end] => destruct x
             end; by injection P as _ <-. }
    by rewrite <- app_assoc.
Qed.

Lemma total_append_to c d r : total (append_to c d r) = S (total r).
Proof. destruct c; unfold total; simpl; rewrite length_app; simpl; lia. Qed.

Lemma organize_total results_list : forall r,
  Forall returned results_list ->
  total (organize results_list r) = (total r + length results_list)%nat.
Proof.
  induction results_list as [|[e|o] rest IH]; intros r Hall;
    cbn [organize length].
  - lia.
  - by inversion Hall.
  - inversion Hall; subst. rewrite IH by done.
    destruct (success o); rewrite total_append_to; lia.
Qed.

(** The record of a document, success or fallback, carries its file name. *)
Lemma process_single_resume_fileName c f jd user_id index w :
  fileName (data (fst (process_single_resume FIREBASE_AVAILABLE S3_AVAILABLE
                         ASYNC_GPT_AVAILABLE c f jd user_id index w)))
  = filename f.
Proof.
  unfold process_single_resume.
  repeat match goal with
         | |- context [match ?x with _ => _ end] => destruct x
         end; reflexivity.
Qed.

Lemma gather_fileNames env resumes : forall index jd user_id w,
  map (fun o => fileName (data o))
      (outcomes (fst (gather FIREBASE_AVAILABLE S3_AVAILABLE
                        ASYNC_GPT_AVAILABLE env resumes index jd user_id w)))
  = map filename resumes.
Proof.
  induction resumes as [|f rest IH]; intros index jd user_id w; simpl; [done|].
  pose proof (process_single_resume_fileName (env index) f jd user_id index w)
    as Hf.
  destruct (process_single_resume _ _ _ _ _ _ _ _ _) as [o w1].
  specialize (IH (S index) jd user_id w1).
  destruct (gather _ _ _ env rest (S index) jd user_id w1) as [os w2].
  simpl in *. by rewrite Hf, IH.
Qed.

Lemma all_records_append_to c d r :
  all_records (append_to c d r) ≡ₚ all_records r ++ [d].
Proof. destruct c; unfold all_records; simpl; solve_Permutation. Qed.

Lemma organize_records results_list : forall r,
  all_records (organize results_list r)
  ≡ₚ all_records r ++ map data (outcomes results_list).
Proof.
  induction results_list as [|[e|o] rest IH]; intros r; cbn [organize].
  - by rewrite app_nil_r.
  - apply IH.
  - rewrite IH. cbn [outcomes omap map]. fold (outcomes rest).
    destruct (success o); rewrite all_records_append_to;
      by rewrite <- app_assoc.
Qed.

(** C2: a run of the batch either fails before any document is taken up
    (insufficient tokens, or no job description) or returns a response whose
    three category lists hold exactly one record per submitted document: as
    many records as documents, and the records' file names are the
    documents' file names. *)
Theorem C2_one_record_per_document env jd_env resumes job_description
    job_description_file user_id w :
  match fst (process_resumes FIREBASE_AVAILABLE S3_AVAILABLE
               ASYNC_GPT_AVAILABLE now raises_check raises_debit
               http_exception_str env jd_env resumes
               job_description job_description_file user_id w) with
  | inr r =>
      total (resp_data r) = length resumes
      /\ map fileName (all_records (resp_data r)) ≡ₚ map filename resumes
  | inl e =>
      (exists e0, fst (preflight FIREBASE_AVAILABLE now raises_check
                         (length resumes) user_id w) = inl e0
                  /\ e = internal_error http_exception_str e0)
      \/ (exists e0, final_job_description jd_env job_description
                       job_description_file = inl e0
                     /\ e = internal_error http_exception_str e0)
  end.
Proof.
  unfold process_resumes.
  destruct (preflight FIREBASE_AVAILABLE now raises_check (length resumes)
              user_id w) as [[e0|[]] w1]; simpl.
  { left. by exists e0. }
  destruct (final_job_description _ _ _) as [e0|final]; simpl.
  { right. by exists e0. }
  destruct (gather_all_returned env resumes 0 final user_id w1) as [Hall Hlen].
  pose proof (gather_fileNames env resumes 0 final user_id w1) as Hnames.
  destruct (gather _ _ _ env resumes 0 final user_id w1) as [results_list w2].
  simpl in *.
  assert (total (organize results_list empty_results) = length resumes
          /\ map fileName (all_records (organize results_list empty_results))
             ≡ₚ map filename resumes) as Ht.
  { split.
    - rewrite organize_total by done. by rewrite Hlen.
    - rewrite organize_records. simpl. by rewrite map_map, Hnames. }
  destruct (given_user user_id) as [uid|]; [|done].
  by destruct (use_tokens _ _ _ _ _ _ _).
Qed.

(** What the token check is told about an owner: the record held (the
    stored one, or the initial one of an owner who has none yet) when the
    Firebase service is there and the read goes through; the initial record,
    with its 100 tokens, otherwise. *)
Lemma get_user_tokens_reported uid s :
  let reported := fst (get_user_tokens FIREBASE_AVAILABLE now raises_check uid
                         s) in
  match raises_check read_get with
  | None =>
      if FIREBASE_AVAILABLE then held now uid s reported
      else reported = initial_doc now uid
  | Some _ => reported = initial_doc now uid
  end.
Proof.
  unfold get_user_tokens, initialize_user_tokens, held.
  destruct FIREBASE_AVAILABLE; cbn [negb]; [|by destruct (raises_check _)].
  destruct (raises_check read_get); [done|].
  destruct (user_tokens s !! uid) as [d|] eqn:L; cbn [fst]; [by left|].
  right. split; [done|].
  by destruct (raises_check init_get), (raises_check init_set).
Qed.

(** The token check logs nothing and changes no record: at most it creates
    the record of an owner who had none. *)
Lemma get_user_tokens_store uid s :
  let s' := snd (get_user_tokens FIREBASE_AVAILABLE now raises_check uid s) in
  token_usage s' = token_usage s
  /\ (user_tokens s' = user_tokens s
      \/ (user_tokens s !! uid = None
          /\ user_tokens s'
             = <[uid := initial_doc now uid]> (user_tokens s))).
Proof.
  unfold get_user_tokens, initialize_user_tokens.
  destruct FIREBASE_AVAILABLE; cbn [negb snd]; [|by auto].
  destruct (raises_check read_get); [by auto|].
  destruct (user_tokens s !! uid) as [d|] eqn:L; [by auto|].
  destruct (raises_check init_get); [by auto|].
  destruct (raises_check init_set); cbn; by auto.
Qed.

(** C5, amended: for every batch with an owner id, when the balance
    [get_user_tokens] reports for the owner is below the number of submitted
    documents, the run fails with the insufficient-tokens error before any
    document is taken up: no pipeline is started, nothing is stored, no
    usage event is recorded and no balance record is changed (the record of
    an owner who had none may have been created, with its 100 tokens).  The
    balance reported is the owner's remaining balance when the Firebase
    service is there and the read goes through, and 100 otherwise. *)
Theorem C5_insufficient_balance_fails_fast env jd_env resumes job_description
    job_description_file user_id uid w :
  given_user user_id = Some uid ->
  let reported :=
    fst (get_user_tokens FIREBASE_AVAILABLE now raises_check uid (ledger w)) in
  tokens reported < calculate_tokens_needed (Z.of_nat (length resumes)) ->
  let run := process_resumes FIREBASE_AVAILABLE S3_AVAILABLE
               ASYNC_GPT_AVAILABLE now raises_check raises_debit
               http_exception_str env jd_env resumes
               job_description job_description_file user_id w in
  fst run
  = inl (internal_error http_exception_str
           (insufficient_tokens (Z.of_nat (length resumes)) (tokens reported)))
  /\ started (snd run) = started w
  /\ uploadedFiles (snd run) = uploadedFiles w
  /\ resumeData (snd run) = resumeData w
  /\ token_usage (ledger (snd run)) = token_usage (ledger w)
  /\ (user_tokens (ledger (snd run)) = user_tokens (ledger w)
      \/ (user_tokens (ledger w) !! uid = None
          /\ user_tokens (ledger (snd run))
             = <[uid := initial_doc now uid]> (user_tokens (ledger w))))
  /\ match raises_check read_get with
     | None =>
         if FIREBASE_AVAILABLE then held now uid (ledger w) reported
         else reported = initial_doc now uid
     | Some _ => reported = initial_doc now uid
     end.
Proof.
  intros Hu reported Hlt run. subst run reported.
  pose proof (get_user_tokens_reported uid (ledger w)) as Hrep.
  pose proof (get_user_tokens_store uid (ledger w)) as [Hlog Hrec].
  unfold process_resumes, preflight. rewrite Hu.
  destruct (get_user_tokens FIREBASE_AVAILABLE now raises_check uid (ledger w))
    as [doc l] eqn:G.
  cbn [fst snd] in *. apply Z.ltb_lt in Hlt. rewrite Hlt.
  cbn [fst snd set_ledger ledger started uploadedFiles resumeData].
  unfold calculate_tokens_needed. by repeat split.
Qed.

End Properties.

(** One document selected, one considered (the reply was not JSON), one
    rejected (the upload could not be read): three records for three
    documents. *)
Example three_documents_three_records :
  match fst (toy_run three_documents None empty_store) with
  | inr r =>
      map name (selected_list (resp_data r)) = [lit "Jane Q Public"]
      /\ map name (considered_list (resp_data r)) = [lit "Bob Stone"]
      /\ map fileName (rejected_list (resp_data r)) = [lit "lost.pdf"]
  | inl _ => False
  end.
Proof. vm_compute. by repeat split. Qed.

(** The same run, as an instance of C2. *)
Lemma C2_one_record_per_document_witness :
  match fst (toy_run three_documents None empty_store) with
  | inr r =>
      total (resp_data r) = 3%nat
      /\ map fileName (all_records (resp_data r))
         ≡ₚ [lit "jane.txt"; lit "bob.txt"; lit "lost.pdf"]
  | inl e =>
      (exists e0, fst (preflight true 1 reliable (length three_documents)
                         None (fresh_world empty_store)) = inl e0
                  /\ e = internal_error starlette_str e0)
      \/ (exists e0, final_job_description toy_collaborators
                       (Some (lit "Looking for a Python engineer")) None
                     = inl e0
                     /\ e = internal_error starlette_str e0)
  end.
Proof.
  exact (C2_one_record_per_document true false false 1 reliable reliable
           starlette_str (fun _ => toy_collaborators) toy_collaborators three_documents
           (Some (lit "Looking for a Python engineer")) None None
           (fresh_world empty_store)).
Defined.

(** The example of the specification: 3 tokens left, 5 documents. *)
Lemma C5_insufficient_balance_witness :
  let run := toy_run five_documents (Some "u"%string) three_left in
  fst run
  = inl (internal_error starlette_str (insufficient_tokens 5 3))
  /\ started (snd run) = []
  /\ uploadedFiles (snd run) = []
  /\ resumeData (snd run) = []
  /\ token_usage (ledger (snd run)) = []
  /\ (user_tokens (ledger (snd run)) = user_tokens three_left
      \/ (user_tokens three_left !! "u"%string = None
          /\ user_tokens (ledger (snd run))
             = <[ "u"%string := initial_doc 1 "u" ]> (user_tokens three_left)))
  /\ held 1 "u" three_left (TokenDoc "u" 3 0 0 0).
Proof.
  exact (C5_insufficient_balance_fails_fast true false false 1 reliable
           reliable starlette_str
           (fun _ => toy_collaborators) toy_collaborators five_documents
           (Some (lit "Looking for a Python engineer")) None
           (Some "u"%string) "u"%string (fresh_world three_left)
           eq_refl eq_refl).
Defined.

(** C5, as stated, fails: the owner has 3 tokens left and submits 5
    documents, but the read of the balance raises, [get_user_tokens] reports
    100 tokens, and the run goes through: the five documents are taken up,
    the response holds their five records and reports 5 tokens used, while
    the debit at the end is refused and the ledger is as it was. *)
Lemma C5_unread_balance_passes :
  user_tokens three_left !! "u"%string = Some (TokenDoc "u" 3 0 0 0)
  /\ (3 <? calculate_tokens_needed 5) = true
  /\ tokens (fst (get_user_tokens true 1 read_fails "u" three_left)) = 100
  /\ match fst (toy_run_with read_fails reliable five_documents
                  (Some "u"%string) three_left) with
     | inr r =>
         total (resp_data r) = 5%nat /\ tokens_used (resp_metadata r) = 5
     | inl _ => False
     end
  /\ started (snd (toy_run_with read_fails reliable five_documents
                     (Some "u"%string) three_left))
     = map filename five_documents
  /\ ledger (snd (toy_run_with read_fails reliable five_documents
                    (Some "u"%string) three_left))
     = three_left.
Proof. vm_compute. by repeat split. Qed.

End Batch.

(* ------------------------------------------------------------------ *)
(** ** Further properties of the validator *)

Module ValidatedFields.
Import PyStr PyRe Validator.

(** The digits of a string. *)
Definition digits_of (s : str) : str := List.filter digit s.

(** X1: A validated name is made of ASCII letters and white space, carries no
    white space at either end and is title-cased: stripping it or
    title-casing it again changes nothing.  (The empty name and "Unknown"
    are of that form.) *)
Theorem validated_name_normal_form n e p :
  let out := name (validate_extracted_data n e p) in
  forallb name_class out = true /\ strip out = out /\ title out = out.
Proof.
  cbv zeta. rewrite validate_by_rule. cbn [name]. rewrite name_rule_spec.
  destruct (forallb name_class n) eqn:F.
  - pose proof (forallb_strip _ _ F) as Fs.
    unfold title. rewrite (title_from_tmap _ _ Fs).
    split; [by apply tmap_class|]. split.
    + apply (strip_id_shape (strip n)); [by apply tmap_shape | apply strip_idem].
    + rewrite title_from_tmap by by apply tmap_class. by apply tmap_idem.
  - by vm_compute.
Qed.

(** X2: A validated email is empty or a lower-case address that matches the
    strict pattern in full, free of white space. *)
Theorem validated_email_normal_form n e p :
  let out := email (validate_extracted_data n e p) in
  out = []
  \/ (full_match email_pattern out = true
      /\ lower out = out /\ nospace out = true /\ strip out = out).
Proof.
  cbv zeta. rewrite validate_by_rule. cbn [email].
  destruct (email_rule_cases e) as [-> | (body & Hs & _ & ->)]; [by left|].
  right. destruct (sem_lower _ _ email_items_ok Hs) as [_ Hl].
  destruct (sem_lower _ _ email_items_ok Hl) as [Hns _].
  split; [by apply full_match_sem|]. split; [apply lower_idem|].
  split; [done|]. by apply strip_nospace.
Qed.

Lemma keep_class_all cls s : forallb cls (keep_class cls s) = true.
Proof.
  unfold keep_class. induction s as [|c s IH]; simpl; [done|].
  destruct (cls c) eqn:E; simpl; [by rewrite E|done].
Qed.

Lemma phone_class_not_plus c :
  phone_class c = true -> negb (Ascii.eqb c "+") = digit c.
Proof. each_char c; vm_compute; intros H; try discriminate H; reflexivity. Qed.

Lemma remove_plus_digits s :
  forallb phone_class s = true -> remove_char "+" s = digits_of s.
Proof.
  unfold remove_char, digits_of. induction s as [|c s IH]; [done|].
  cbn [forallb List.filter]. intros [Hc Hs]%andb_true_iff.
  by rewrite (IH Hs), (phone_class_not_plus _ Hc).
Qed.

(** X3: A validated phone is empty, or it is the input with everything but
    digits and [+] removed, holding 7 to 15 digits; a phone with fewer than
    7 or more than 15 digits is cleared. *)
Theorem validated_phone_normal_form n e p :
  let out := phone (validate_extracted_data n e p) in
  let digits := length (digits_of p) in
  (if (7 <=? digits)%nat && (digits <=? 15)%nat
   then out = keep_class phone_class p
   else out = [])
  /\ forallb phone_class out = true
  /\ digits_of out = (if (7 <=? digits)%nat && (digits <=? 15)%nat
                      then digits_of p else []).
Proof.
  cbv zeta. rewrite validate_by_rule. cbn [phone]. unfold phone_rule.
  assert (digits_of (keep_class phone_class p) = digits_of p) as Hd.
  { unfold digits_of, keep_class. induction p as [|c s IH]; simpl; [done|].
    destruct (phone_class c) eqn:E; simpl.
    - by rewrite IH.
    - rewrite IH. destruct (digit c) eqn:D; [|done].
      unfold phone_class in E. by rewrite D in E. }
  rewrite (remove_plus_digits _ (keep_class_all _ _)), Hd.
  destruct p as [|c s]; [by vm_compute|]. cbn [truthy].
  destruct (_ && _); [|done].
  split; [done|]. split; [apply keep_class_all|done].
Qed.

End ValidatedFields.

(* ------------------------------------------------------------------ *)
(** ** The categorizer respects the order of the scores *)

Module CategorizerOrder.
Import PyFloat Categorizer.

(** [x <= y] on floats. *)
Definition le (x y : float) : bool := SFleb x y.

(** The buckets, from worst to best. *)
Definition rank (c : category) : nat :=
  match c with rejected => 0 | considered => 1 | selected => 2 end.

(** The comparison of two finite values of the same sign. *)
Definition cmp_fin (e1 : Z) (m1 : positive) (e2 : Z) (m2 : positive)
  : comparison :=
  match e1 ?= e2 with
  | Lt => Lt
  | Gt => Gt
  | Eq => Pos.compare_cont Eq m1 m2
  end.

Definition not_gt (c : comparison) : bool :=
  match c with Gt => false | _ => true end.

Definition not_lt (c : comparison) : bool :=
  match c with Lt => false | _ => true end.

Lemma cmp_fin_cases e1 m1 e2 m2 :
  match cmp_fin e1 m1 e2 m2 with
  | Lt => e1 < e2 \/ (e1 = e2 /\ (m1 < m2)%positive)
  | Eq => e1 = e2 /\ m1 = m2
  | Gt => e2 < e1 \/ (e1 = e2 /\ (m2 < m1)%positive)
  end.
Proof.
  unfold cmp_fin. destruct (Z.compare_spec e1 e2) as [E|E|E];
    [|by left|by left].
  rewrite Pos.compare_cont_spec. simpl.
  destruct (Pos.compare_spec m1 m2); [done|by right|by right].
Qed.

Lemma cmp_fin_not_gt_trans e1 m1 e2 m2 e3 m3 :
  not_gt (cmp_fin e1 m1 e2 m2) = true -> not_gt (cmp_fin e2 m2 e3 m3) = true ->
  not_gt (cmp_fin e1 m1 e3 m3) = true.
Proof.
  pose proof (cmp_fin_cases e1 m1 e2 m2) as A.
  pose proof (cmp_fin_cases e2 m2 e3 m3) as B.
  pose proof (cmp_fin_cases e1 m1 e3 m3) as C.
  destruct (cmp_fin e1 m1 e2 m2), (cmp_fin e2 m2 e3 m3),
    (cmp_fin e1 m1 e3 m3); simpl; try done; intros _ _; exfalso; lia.
Qed.

Lemma cmp_fin_not_lt_trans e1 m1 e2 m2 e3 m3 :
  not_lt (cmp_fin e1 m1 e2 m2) = true -> not_lt (cmp_fin e2 m2 e3 m3) = true ->
  not_lt (cmp_fin e1 m1 e3 m3) = true.
Proof.
  pose proof (cmp_fin_cases e1 m1 e2 m2) as A.
  pose proof (cmp_fin_cases e2 m2 e3 m3) as B.
  pose proof (cmp_fin_cases e1 m1 e3 m3) as C.
  destruct (cmp_fin e1 m1 e2 m2), (cmp_fin e2 m2 e3 m3),
    (cmp_fin e1 m1 e3 m3); simpl; try done; intros _ _; exfalso; lia.
Qed.

Lemma cmp_neg e1 m1 e2 m2 :
  match e1 ?= e2 with
  | Eq => CompOpp (Pos.compare_cont Eq m1 m2)
  | Lt => Gt
  | Gt => Lt
  end = CompOpp (cmp_fin e1 m1 e2 m2).
Proof. unfold cmp_fin. by destruct (e1 ?= e2). Qed.

(** The float comparison [<=] is transitive. *)
Lemma float_le_trans x y z : le x y = true -> le y z = true -> le x z = true.
Proof.
  unfold le, SFleb.
  destruct x as [[]|[]| |[] mx ex], y as [[]|[]| |[] my ey],
    z as [[]|[]| |[] mz ez]; cbn [SFcompare]; try done.
  - rewrite !cmp_neg.
    pose proof (cmp_fin_not_lt_trans ex mx ey my ez mz) as T.
    destruct (cmp_fin ex mx ey my), (cmp_fin ey my ez mz),
      (cmp_fin ex mx ez mz); simpl in *; try done; intros; by apply T.
  - fold (cmp_fin ex mx ey my) (cmp_fin ey my ez mz) (cmp_fin ex mx ez mz).
    pose proof (cmp_fin_not_gt_trans ex mx ey my ez mz) as T.
    destruct (cmp_fin ex mx ey my), (cmp_fin ey my ez mz),
      (cmp_fin ex mx ez mz); simpl in *; try done; intros; by apply T.
Qed.

(** X4: A higher score never lands in a lower bucket. *)
Theorem categorize_resume_monotone s1 s2 :
  le s1 s2 = true ->
  (rank (categorize_resume s1) <= rank (categorize_resume s2))%nat.
Proof.
  intros Hle. unfold categorize_resume.
  destruct (ge s1 f7_0) eqn:A1.
  - assert (ge s2 f7_0 = true) as ->; [|done].
    unfold ge in *. by apply (float_le_trans _ s1).
  - destruct (ge s1 f4_0) eqn:B1; [|simpl; lia].
    assert (ge s2 f4_0 = true) as ->.
    { unfold ge in *. by apply (float_le_trans _ s1). }
    destruct (ge s2 f7_0); simpl; lia.
Qed.

(** 5.0 is "considered", 7.0 is "selected". *)
Lemma categorize_resume_monotone_witness :
  (rank (categorize_resume f5_0) <= rank (categorize_resume f7_0))%nat.
Proof. exact (categorize_resume_monotone f5_0 f7_0 eq_refl). Defined.

End CategorizerOrder.

(* ------------------------------------------------------------------ *)
(** ** The shape of an extracted name *)

Module ExtractedName.
Import PyStr Validator NameExtractor.

(** A word: not empty, free of white space. *)
Definition word_ok (w : str) : bool := truthy w && nospace w.

Lemma split_from_word w : forall cur rest,
  nospace w = true ->
  split_from cur (w ++ rest) = split_from (rev w ++ cur) rest.
Proof.
  induction w as [|c w IH]; intros cur rest H; [done|].
  unfold nospace in *. cbn [forallb] in H.
  apply andb_true_iff in H as [Hc Hw]. apply negb_true_iff in Hc.
  cbn [app split_from rev]. rewrite Hc, (IH _ _ Hw).
  by rewrite <- app_assoc.
Qed.

Lemma flush_word w rest : word_ok w = true -> flush (rev w) rest = w :: rest.
Proof.
  unfold word_ok. intros [Hw _]%andb_true_iff.
  destruct w as [|c w]; [done|]. unfold flush.
  destruct (rev (c :: w)) eqn:E.
  - apply (f_equal (@length _)) in E. rewrite length_rev in E. done.
  - by rewrite <- E, rev_involutive.
Qed.

(** [split] undoes [join]: words joined by single spaces split back into
    the same words. *)
Lemma split_join words :
  forallb word_ok words = true -> split (join space words) = words.
Proof.
  unfold split. induction words as [|w ws IH]; [done|].
  cbn [forallb]. intros [Hw Hws]%andb_true_iff.
  pose proof Hw as [_ Hn]%andb_true_iff.
  destruct ws as [|w' ws].
  - cbn [join]. rewrite <- (app_nil_r w) at 1.
    rewrite split_from_word by done.
    rewrite app_nil_r. cbn [split_from]. by apply flush_word.
  - change (join space (w :: w' :: ws))
      with (w ++ " "%char :: join space (w' :: ws)).
    rewrite split_from_word by done. rewrite app_nil_r.
    change (split_from (rev w) (" "%char :: join space (w' :: ws)))
      with (flush (rev w) (split_from [] (join space (w' :: ws)))).
    rewrite (IH Hws). by apply flush_word.
Qed.

(** The words of [split] are words. *)
Lemma split_from_words s : forall cur,
  nospace cur = true -> forallb word_ok (split_from cur s) = true.
Proof.
  assert (forall cur rest, nospace cur = true ->
            forallb word_ok rest = true ->
            forallb word_ok (flush cur rest) = true) as Hflush.
  { intros cur rest Hc Hr. destruct cur as [|c cur]; [done|].
    cbn [flush forallb]. rewrite Hr, andb_true_r.
    unfold word_ok, nospace in *. rewrite forallb_rev, Hc, andb_true_r.
    destruct (rev (c :: cur)) eqn:E; [|done].
    apply (f_equal (@length _)) in E. rewrite length_rev in E. done. }
  induction s as [|c s IH]; intros cur Hc; cbn [split_from].
  - by apply Hflush.
  - destruct (isspace_c c) eqn:E.
    + apply Hflush; [done|]. by apply IH.
    + apply IH. unfold nospace in *. cbn [forallb]. by rewrite E, Hc.
Qed.

Lemma split_words s : forallb word_ok (split s) = true.
Proof. by apply split_from_words. Qed.

(** Capitalizing a word gives a word. *)
Lemma nospace_case c :
  isspace_c c = false ->
  nospace (title_c c) = true /\ truthy (title_c c) = true
  /\ isspace_c (lower_c c) = false.
Proof. each_char c; vm_compute; intros H; try discriminate H; by repeat split. Qed.

Lemma capitalize_word w : word_ok w = true -> word_ok (capitalize w) = true.
Proof.
  unfold word_ok. intros [Hw Hn]%andb_true_iff.
  destruct w as [|c w]; [done|]. unfold nospace in *. cbn [forallb] in Hn.
  apply andb_true_iff in Hn as [Hc Hn]. apply negb_true_iff in Hc.
  destruct (nospace_case c Hc) as (H1 & H2 & _).
  cbn [capitalize]. apply andb_true_iff; split.
  - by destruct (title_c c).
  - unfold nospace in H1. rewrite forallb_app, H1. cbn [andb].
    clear -Hn. unfold lower. induction w as [|x w IH]; [done|].
    cbn [map forallb] in *. apply andb_true_iff in Hn as [Hx Hn].
    apply negb_true_iff in Hx. destruct (nospace_case x Hx) as (_ & _ & ->).
    by rewrite IH.
Qed.

Lemma capitalize_words words :
  forallb word_ok words = true -> forallb word_ok (map capitalize words) = true.
Proof.
  induction words as [|w ws IH]; [done|]. cbn [map forallb].
  intros [Hw Hws]%andb_true_iff. by rewrite (capitalize_word _ Hw), IH.
Qed.

(** What the second loop returns. *)
Lemma scan_labelled_shape lines name :
  scan_labelled lines = Some name ->
  exists words, forallb word_ok words = true
                /\ (2 <= length words <= 4)%nat
                /\ name = join space words.
Proof.
  induction lines as [|line rest IH]; [done|]. cbn [scan_labelled]. cbv zeta.
  destruct (_ || _); [|exact IH].
  destruct (1 <? length _)%nat; [|exact IH].
  set (words := split (strip (nth 1 (split_once ":" (lower (strip line))) []))).
  pose proof (split_words (strip (nth 1 (split_once ":" (lower (strip line))) [])))
    as Hw. fold words in Hw.
  destruct ((2 <=? length words)%nat && (length words <=? 4)%nat) eqn:L;
    [|exact IH].
  intros [= <-]. exists (map capitalize words).
  apply andb_true_iff in L as [L1 L2].
  apply Nat.leb_le in L1, L2. rewrite length_map.
  split; [by apply capitalize_words|]. split; [lia|done].
Qed.

(** X5: The structural name extractors return "Unknown" or a name in normal
    form: resume_tasks.py's extractor a line of 2 to 4 capitalized
    alphabetic words, none a contact label; main.py's extractor 2 to 4
    words; in both cases separated by single spaces, so that splitting the
    name and joining it again gives the name back. *)
Theorem extracted_name_shape text :
  let t := extract_name_from_text text in
  let m := extract_name_with_patterns text in
  (t = unknown \/ (name_line t = true /\ join space (split t) = t))
  /\ (m = unknown
      \/ ((2 <= length (split m) <= 4)%nat /\ join space (split m) = m)).
Proof.
  cbv zeta. unfold extract_name_from_text, extract_name_with_patterns.
  cbv zeta. rewrite scan_lines_first_candidate.
  destruct (first_candidate _) as [line|] eqn:E; cbn [option_map].
  - unfold first_candidate in E. apply List.find_some in E as [_ Hl].
    pose proof (split_join _ (split_words line)) as Hs.
    assert (name_line (join space (split line)) = true) as Hn.
    { unfold name_line in *. by rewrite Hs. }
    split; right; rewrite ?Hs; split; try done.
    unfold name_line in Hl.
    apply andb_true_iff in Hl as [[[L1 L2]%andb_true_iff _]%andb_true_iff _].
    apply Nat.leb_le in L1, L2. lia.
  - split; [by left|].
    destruct (scan_labelled _) as [name|] eqn:S; [|by left].
    right. apply scan_labelled_shape in S as (words & Hw & Hlen & ->).
    by rewrite (split_join _ Hw).
Qed.

End ExtractedName.

(* ------------------------------------------------------------------ *)
(** ** Further properties of the scorers *)

Module ScorerFacts.
Import PyStr PyFloat PyExn Categorizer Scorer.

(** A reply that is the empty JSON object. *)
Definition empty_object_classifier (_ _ : str) : result response :=
  inr [Some (lit "{}")].
Definition loads_empty_object (_ : str) : result json := inr (JObject ∅).

Section WithClassifier.

Variable create : str -> str -> result response.
Variable json_loads : str -> result json.
Variable float_of_str : str -> option float.

(** X6: The synchronous and the asynchronous scorer return the same record,
    as long as the classifier call itself does not fail with a JSON decoding
    error. *)
Theorem scorers_agree resume_text job_description :
  (forall e, create job_description (firstn 3000 resume_text) = inl e ->
             is_json_decode_error e = false) ->
  analyze_resume_async create json_loads float_of_str resume_text
    job_description
  = inr (analyze_resume_with_gpt create json_loads float_of_str resume_text
           job_description).
Proof.
  intros Hcall. unfold analyze_resume_async, analyze_resume_with_gpt.
  destruct (create job_description (firstn 3000 resume_text)) as [e|r] eqn:C;
    cbn [bind try_except_all].
  { by rewrite (Hcall e). }
  destruct (content_of r) as [e|text] eqn:Hc; cbn [bind try_except_all].
  { by rewrite (content_of_not_decode_error _ _ Hc). }
  destruct (json_loads text) as [e|v]; cbn [bind ret].
  - cbn [try_except try_except_all]. by destruct (is_json_decode_error e).
  - destruct (build float_of_str v) as [e|a] eqn:Hb;
      cbn [try_except try_except_all]; [|done].
    by rewrite (build_not_decode_error _ _ _ Hb).
Qed.

(** X7: When the reply is a JSON object without a "score" member, the score is
    0.0, so the resume is rejected, whatever the object says otherwise; the
    other members default to "No explanation provided" and to empty
    lists. *)
Theorem missing_score_is_zero resume_text job_description r text members :
  create job_description (firstn 3000 resume_text) = inr r ->
  content_of r = inr text ->
  json_loads text = inr (JObject members) ->
  members !! "score"%string = None ->
  let a := analyze_resume_with_gpt create json_loads float_of_str resume_text
             job_description in
  a = Analysis f0_0
        (default (JString (lit "No explanation provided"))
                 (members !! "explanation"%string))
        (default (JArray []) (members !! "strengths"%string))
        (default (JArray []) (members !! "weaknesses"%string))
  /\ analyze_resume_async create json_loads float_of_str resume_text
       job_description = inr a
  /\ categorize_resume (score a) = rejected.
Proof.
  intros C Hc Hj Hs a. subst a.
  unfold analyze_resume_async, analyze_resume_with_gpt, build, get.
  rewrite C. cbn [bind]. rewrite Hc. cbn [bind]. rewrite Hj. cbn [bind ret].
  rewrite Hs. by repeat split.
Qed.

End WithClassifier.

(** A reply of text that is no JSON: both scorers give the same record. *)
Lemma scorers_agree_witness :
  analyze_resume_async chatty_classifier no_json no_float (lit "Jane")
    (lit "Python")
  = inr (analyze_resume_with_gpt chatty_classifier no_json no_float
           (lit "Jane") (lit "Python")).
Proof.
  apply (scorers_agree chatty_classifier no_json no_float (lit "Jane")
           (lit "Python")).
  intros e H. discriminate H.
Defined.

(** The reply "{}". *)
Lemma missing_score_is_zero_witness :
  let a := analyze_resume_with_gpt empty_object_classifier loads_empty_object
             no_float (lit "Jane") (lit "Python") in
  a = Analysis f0_0 (JString (lit "No explanation provided"))
        (JArray []) (JArray [])
  /\ analyze_resume_async empty_object_classifier loads_empty_object no_float
       (lit "Jane") (lit "Python") = inr a
  /\ categorize_resume (score a) = rejected.
Proof.
  exact (missing_score_is_zero empty_object_classifier loads_empty_object
           no_float (lit "Jane") (lit "Python") [Some (lit "{}")] (lit "{}") ∅
           eq_refl eq_refl eq_refl eq_refl).
Defined.

End ScorerFacts.

(* ------------------------------------------------------------------ *)
(** ** The token account over a history of requests *)

Module TokenAccount.
Import PyStr Ledger.

(** The mock token packages of the purchase endpoint. *)
Record package := Package { pk_tokens : Z; price : Z }.

Definition token_packages : gmap string package :=
  {[ "standard"%string := Package 100 0 ]}.

(** The dictionary a successful purchase returns. *)
Record receipt := Receipt {
  message : str;
  tokens_added : Z;
  rc_price : Z
}.

(** [purchase_tokens]: the package is looked up first, then the Firebase
    service is checked, then the balance is raised, or created with the 100
    free tokens on top.  The handler re-raises its own [HTTPException]s.
    The store calls of a purchase are taken to go through: the last
    [except] branch, which only a store call that raises reaches, refuses
    the purchase with status 500 and leaves the store as it is. *)
Definition purchase_tokens (FIREBASE_AVAILABLE : bool) (now : Z)
    (uid token_package : string) (s : store)
  : (Batch.http_exception + receipt) * store :=
  match token_packages !! token_package with
  | None => (inl (Batch.HTTPException 400 (lit "Invalid token package")), s)
  | Some package =>
      if negb FIREBASE_AVAILABLE
      then (inl (Batch.HTTPException 500 (lit "Firebase service not available")),
            s)
      else
        let s :=
          match user_tokens s !! uid with
          | Some current_tokens =>
              let new_balance := tokens current_tokens + pk_tokens package in
              Store (<[uid := TokenDoc (user_id current_tokens) new_balance
                                (total_used current_tokens)
                                (created_at current_tokens) now]>
                       (user_tokens s))
                    (token_usage s)
          | None =>
              Store (<[uid := TokenDoc uid (100 + pk_tokens package) 0 now now]>
                       (user_tokens s))
                    (token_usage s)
          end in
        (inr (Receipt (lit "Successfully purchased "
                       ++ lit (pretty (pk_tokens package)) ++ lit " tokens")
                (pk_tokens package) (price package)),
         s)
  end.

(** The requests that touch the token account, and the owner each one
    names. *)
Inductive request :=
| Initialize (uid : string)
| Balance (uid : string)
| Debit (uid : string) (tokens_used : Z) (operation : string)
| Purchase (uid : string) (token_package : string).

Definition owner (r : request) : string :=
  match r with
  | Initialize uid | Balance uid | Debit uid _ _ | Purchase uid _ => uid
  end.

(** The store after a request served at clock reading [now], with
    [raises] for what the store calls of the token functions do.  (A
    purchase whose store call raises is refused with status 500 and leaves
    the store as it is: for the store it is a request that was not made.) *)
Definition serve (FIREBASE_AVAILABLE : bool) (now : Z) (raises : faults)
    (r : request) (s : store) : store :=
  match r with
  | Initialize uid =>
      snd (initialize_user_tokens FIREBASE_AVAILABLE now raises uid s)
  | Balance uid => snd (get_user_tokens FIREBASE_AVAILABLE now raises uid s)
  | Debit uid tokens_used operation =>
      snd (use_tokens FIREBASE_AVAILABLE now raises uid tokens_used operation
             s)
  | Purchase uid token_package =>
      snd (purchase_tokens FIREBASE_AVAILABLE now uid token_package s)
  end.

(** The store after a sequence of requests, each with its clock reading
    and with what the store does while it is served. *)
Fixpoint history (FIREBASE_AVAILABLE : bool)
    (requests : list (Z * faults * request)) (s : store) : store :=
  match requests with
  | [] => s
  | (now, raises, r) :: rest =>
      history FIREBASE_AVAILABLE rest (serve FIREBASE_AVAILABLE now raises r s)
  end.

(** The usage events of the requests are all written. *)
Definition usage_written (requests : list (Z * faults * request)) : Prop :=
  Forall (fun x => snd (fst x) debit_add = None) requests.

(** No balance record is below zero. *)
Definition solvent (s : store) : Prop :=
  map_Forall (fun _ d => 0 <= tokens d) (user_tokens s).

(** What the usage log attributes to an owner. *)
Definition logged (uid : string) (log : list usage_event) : Z :=
  foldr (fun ev acc =>
           if String.eqb (ev_user_id ev) uid then ev_tokens_used ev + acc
           else acc)
        0 log.

(** The total consumed on every record is what the usage log attributes to
    its owner; an owner without a record has nothing logged. *)
Definition log_consistent (s : store) : Prop :=
  forall uid,
    logged uid (token_usage s)
    = match user_tokens s !! uid with
      | Some d => total_used d
      | None => 0
      end.

(** The tokens an owner bought in a sequence of requests. *)
Definition bought (uid : string) (r : request) : Z :=
  match r with
  | Purchase u token_package =>
      if String.eqb u uid
      then match token_packages !! token_package with
           | Some package => pk_tokens package
           | None => 0
           end
      else 0
  | _ => 0
  end.

Definition purchased (uid : string)
    (requests : list (Z * faults * request)) : Z :=
  foldr (fun x acc => bought uid (snd x) + acc) 0 requests.

(** Every record is filed under its owner and holds, consumed tokens
    included, the 100 free tokens and [k] more; an owner without a record
    has bought nothing. *)
Definition funded (k : string -> Z) (s : store) : Prop :=
  forall uid,
    match user_tokens s !! uid with
    | Some d => user_id d = uid /\ tokens d + total_used d = 100 + k uid
    | None => k uid = 0
    end.

(** Example stores and histories. *)
Definition two_owners : store :=
  Store {[ "u"%string := TokenDoc "u" 3 0 0 0;
           "v"%string := TokenDoc "v" 40 60 0 0 ]}
        [UsageEvent "v" 60 "resume_screening" 0].

Definition a_week : list (Z * faults * request) :=
  [ (1, reliable, Balance "u");
    (2, reliable, Debit "u" 30 "resume_screening");
    (3, update_fails, Debit "u" 10 "resume_screening");
    (4, reliable, Purchase "u" "standard");
    (5, reliable, Purchase "u" "gold");
    (6, read_fails, Debit "u" 80 "resume_screening");
    (7, reliable, Purchase "v" "standard") ].

(** *** The package table *)

Lemma token_packages_hundred p package :
  token_packages !! p = Some package -> pk_tokens package = 100.
Proof.
  unfold token_packages. intros H.
  apply lookup_singleton_Some in H as [_ <-]. reflexivity.
Qed.

(** *** One request *)

Lemma logged_app uid l1 l2 :
  logged uid (l1 ++ l2) = logged uid l1 + logged uid l2.
Proof.
  induction l1 as [|ev l1 IH]; simpl; [done|].
  destruct (String.eqb (ev_user_id ev) uid); lia.
Qed.

Lemma serve_without_store now raises r s : serve false now raises r s = s.
Proof.
  destruct r; simpl; try reflexivity.
  unfold purchase_tokens. by destruct (token_packages !! token_package).
Qed.

Lemma history_without_store requests : forall s,
  history false requests s = s.
Proof.
  induction requests as [|[[now raises] r] rest IH]; intros s; simpl; [done|].
  by rewrite serve_without_store.
Qed.

(** Case analysis of the store after a request with the service
    available: nothing changes; or a record is created; or a purchase
    raises a balance; or a debit lowers one, with its usage event unless
    the write of the event raised. *)
Lemma serve_cases now raises r s :
  let uid := owner r in
  (serve true now raises r s = s /\ bought uid r = 0)
  \/ (user_tokens s !! uid = None
      /\ exists gain,
           (gain = 0 \/ gain = 100)
           /\ bought uid r = gain
           /\ serve true now raises r s
              = Store (<[uid := TokenDoc uid (100 + gain) 0 now now]>
                         (user_tokens s))
                      (token_usage s))
  \/ (exists d,
        user_tokens s !! uid = Some d
        /\ bought uid r = 100
        /\ serve true now raises r s
           = Store (<[uid := TokenDoc (user_id d) (tokens d + 100)
                               (total_used d) (created_at d) now]>
                      (user_tokens s))
                   (token_usage s))
  \/ (exists d n op extra,
        bought uid r = 0
        /\ n <= tokens d
        /\ held now uid s d
        /\ ((raises debit_add <> None /\ extra = [])
            \/ (raises debit_add = None
                /\ extra = [UsageEvent uid n op now]))
        /\ serve true now raises r s
           = Store (<[uid := debited now n d]> (user_tokens s))
                   (token_usage s ++ extra)).
Proof.
  destruct r as [uid|uid|uid n op|uid p]; cbn [owner serve bought].
  - unfold initialize_user_tokens. cbn [negb].
    destruct (raises init_get); [by left|].
    destruct (user_tokens s !! uid) eqn:L; cbn [snd]; [by left|].
    destruct (raises init_set); [by left|].
    right. left. split; [done|]. exists 0. by repeat split; auto.
  - unfold get_user_tokens, initialize_user_tokens. cbn [negb].
    destruct (raises read_get); [by left|].
    destruct (user_tokens s !! uid) eqn:L; cbn [snd]; [by left|].
    destruct (raises init_get); [by left|].
    destruct (raises init_set); [by left|].
    right. left. split; [done|]. exists 0. by repeat split; auto.
  - destruct (use_tokens_cases now raises uid n op s)
      as [E|[[L E]|[(d & L & E)|(L & G & S & E)]]]; rewrite E; clear E.
    + by left.
    + right. left. split; [done|]. exists 0. by repeat split; auto.
    + destruct (debit_cases now raises uid n op d s)
        as [[_ E]|[(_ & _ & E)|[(Hle & _ & A & E)|(Hle & _ & A & E)]]];
        rewrite E; clear E; cbn [snd]; [by left|by left|..];
        right; right; right.
      * exists d, n, op, []. rewrite app_nil_r.
        split; [done|]. split; [done|]. split; [by left|].
        split; [by left|done].
      * exists d, n, op, [UsageEvent uid n op now].
        split; [done|]. split; [done|]. split; [by left|].
        split; [by right|done].
    + destruct (debit_cases now raises uid n op (initial_doc now uid)
                  (Store (<[uid := initial_doc now uid]> (user_tokens s))
                         (token_usage s)))
        as [[_ E]|[(_ & _ & E)|[(Hle & _ & A & E)|(Hle & _ & A & E)]]];
        rewrite E; clear E; cbn [snd user_tokens token_usage].
      * right. left. split; [done|]. exists 0. by repeat split; auto.
      * right. left. split; [done|]. exists 0. by repeat split; auto.
      * right. right. right. exists (initial_doc now uid), n, op, [].
        rewrite app_nil_r, insert_insert_eq.
        split; [done|]. split; [done|]. split; [by right|].
        split; [by left|done].
      * right. right. right.
        exists (initial_doc now uid), n, op, [UsageEvent uid n op now].
        rewrite insert_insert_eq.
        split; [done|]. split; [done|]. split; [by right|].
        split; [by right|done].
  - rewrite String.eqb_refl. unfold purchase_tokens. cbn [negb].
    destruct (token_packages !! p) as [package|] eqn:P; cbn [snd]; [|by left].
    rewrite (token_packages_hundred _ _ P).
    destruct (user_tokens s !! uid) as [d|] eqn:L.
    + right. right. left. by exists d.
    + right. left. split; [done|]. exists 100. by repeat split; auto.
Qed.

Lemma bought_other uid r : uid <> owner r -> bought uid r = 0.
Proof.
  destruct r; cbn [owner bought]; try done.
  intros Hne. destruct (String.eqb_spec uid0 uid); [congruence|done].
Qed.

(** With the service available, a request does not touch the owners it
    does not name. *)
Lemma serve_other_owner now raises r s uid :
  uid <> owner r ->
  user_tokens (serve true now raises r s) !! uid = user_tokens s !! uid
  /\ logged uid (token_usage (serve true now raises r s))
     = logged uid (token_usage s).
Proof.
  intros Hne.
  destruct (serve_cases now raises r s)
    as [[-> _]|[[_ (gain & _ & _ & ->)]|[(d & _ & _ & ->)
         |(d & n & op & extra & _ & _ & _ & Hx & ->)]]];
    cbn [user_tokens token_usage]; rewrite ?lookup_insert_ne by done;
    try done.
  split; [done|]. rewrite logged_app.
  destruct Hx as [[_ ->]|[_ ->]]; cbn [logged foldr ev_user_id]; [lia|].
  destruct (String.eqb_spec (owner r) uid); [congruence|lia].
Qed.

(** X8: A request leaves alone every owner it does not name: their record
    and what the usage log attributes to them, whatever the store calls
    do. *)
Theorem request_touches_one_owner FIREBASE_AVAILABLE now raises r s uid :
  uid <> owner r ->
  let s' := serve FIREBASE_AVAILABLE now raises r s in
  user_tokens s' !! uid = user_tokens s !! uid
  /\ logged uid (token_usage s') = logged uid (token_usage s).
Proof.
  intros Hne s'. subst s'. destruct FIREBASE_AVAILABLE.
  - by apply serve_other_owner.
  - by rewrite serve_without_store.
Qed.

Lemma solvent_serve FIREBASE_AVAILABLE now raises r s :
  solvent s -> solvent (serve FIREBASE_AVAILABLE now raises r s).
Proof.
  intros Hs. destruct FIREBASE_AVAILABLE; [|by rewrite serve_without_store].
  destruct (serve_cases now raises r s)
    as [[-> _]|[[_ (gain & Hg & _ & ->)]|[(d & L & _ & ->)
         |(d & n & op & extra & _ & Hn & L & _ & ->)]]]; [done|..];
    intros uid d' H; cbn [user_tokens] in H;
    (destruct (decide (uid = owner r)) as [->|Hne];
     [rewrite lookup_insert_eq in H; injection H as <-;
      cbn [tokens debited]
     |rewrite ?lookup_insert_ne in H by done; by apply (Hs uid)]).
  - destruct Hg as [->| ->]; lia.
  - specialize (Hs _ _ L). cbv beta in Hs. lia.
  - lia.
Qed.

(** X9: Whatever requests are served, in whatever order and whatever the
    store calls do, no balance goes below zero: a store without a negative
    balance never gets one. *)
Theorem balance_never_negative FIREBASE_AVAILABLE requests : forall s,
  solvent s -> solvent (history FIREBASE_AVAILABLE requests s).
Proof.
  induction requests as [|[[now raises] r] rest IH]; intros s Hs;
    cbn [history]; [done|].
  apply IH. by apply solvent_serve.
Qed.

Lemma log_consistent_serve FIREBASE_AVAILABLE now raises r s :
  raises debit_add = None ->
  log_consistent s -> log_consistent (serve FIREBASE_AVAILABLE now raises r s).
Proof.
  intros Hadd Hs.
  destruct FIREBASE_AVAILABLE; [|by rewrite serve_without_store].
  intros uid. destruct (decide (uid = owner r)) as [->|Hne].
  2:{ destruct (serve_other_owner now raises r s uid Hne) as [-> ->].
      apply Hs. }
  specialize (Hs (owner r)).
  destruct (serve_cases now raises r s)
    as [[-> _]|[[L (gain & _ & _ & ->)]|[(d & L & _ & ->)
         |(d & n & op & extra & _ & _ & L & Hx & ->)]]]; [done|..];
    cbn [user_tokens token_usage]; rewrite lookup_insert_eq;
    cbn [total_used debited].
  - by rewrite L in Hs.
  - by rewrite L in Hs.
  - destruct Hx as [[Hx _]|[_ ->]]; [done|].
    rewrite logged_app. cbn [logged foldr ev_user_id ev_tokens_used].
    rewrite String.eqb_refl. fold (logged (owner r) (token_usage s)).
    destruct L as [L|[L ->]]; rewrite L in Hs; cbn [initial_doc total_used];
      lia.
Qed.

(** X10: As long as the usage events are written, the usage log accounts
    for all consumption: when the total consumed on every record is what
    the log attributes to its owner, this still holds after any sequence of
    requests in which no write of a usage event raises, whatever the other
    store calls do.  (A debit whose usage event is lost has raised the
    total consumed all the same.) *)
Theorem usage_log_accounts_for_consumption FIREBASE_AVAILABLE requests :
  usage_written requests ->
  forall s,
  log_consistent s -> log_consistent (history FIREBASE_AVAILABLE requests s).
Proof.
  induction requests as [|[[now raises] r] rest IH]; intros Hw s Hs;
    cbn [history]; [done|].
  inversion Hw as [|? ? Hadd Hrest]; subst. cbn [fst snd] in Hadd.
  apply (IH Hrest). by apply log_consistent_serve.
Qed.

Lemma funded_ext k k' s : (forall uid, k uid = k' uid) -> funded k s -> funded k' s.
Proof.
  intros E H uid. specialize (H uid). rewrite <- E.
  by destruct (user_tokens s !! uid).
Qed.

Lemma funded_serve now raises r s k :
  funded k s ->
  funded (fun uid => k uid + bought uid r) (serve true now raises r s).
Proof.
  intros Hs uid.
  destruct (decide (uid = owner r)) as [->|Hne].
  2:{ destruct (serve_other_owner now raises r s uid Hne) as [-> _].
      rewrite (bought_other _ _ Hne). specialize (Hs uid).
      destruct (user_tokens s !! uid); [|lia].
      destruct Hs. split; [done|lia]. }
  specialize (Hs (owner r)).
  destruct (serve_cases now raises r s)
    as [[-> B]|[[L (gain & Hg & B & ->)]|[(d & L & B & ->)
         |(d & n & op & extra & B & _ & L & _ & ->)]]];
    rewrite B; cbn [user_tokens]; rewrite ?lookup_insert_eq;
    cbn [user_id tokens total_used debited].
  - destruct (user_tokens s !! owner r); [|lia].
    destruct Hs. split; [done|lia].
  - rewrite L in Hs. split; [done|lia].
  - rewrite L in Hs. destruct Hs. split; [done|lia].
  - destruct L as [L|[L ->]]; rewrite L in Hs;
      cbn [initial_doc user_id tokens total_used].
    + destruct Hs. split; [done|lia].
    + split; [done|lia].
Qed.

Lemma funded_history requests : forall k s,
  funded k s ->
  funded (fun uid => k uid + purchased uid requests) (history true requests s).
Proof.
  induction requests as [|[[now raises] r] rest IH]; intros k s Hs;
    cbn [history purchased foldr snd].
  - apply (funded_ext k); [intros; lia|done].
  - apply (funded_ext (fun uid => (k uid + bought uid r) + purchased uid rest)).
    { intros uid. unfold purchased. lia. }
    apply IH. by apply funded_serve.
Qed.

(** X11: Starting from the empty store, after any sequence of requests,
    whatever the store calls do, every record is filed under its owner, and
    what it holds plus what it has consumed is the 100 free tokens plus the
    tokens its owner bought: debits move tokens from one field to the
    other, and nothing else creates or destroys any. *)
Theorem tokens_are_conserved FIREBASE_AVAILABLE requests uid d :
  user_tokens (history FIREBASE_AVAILABLE requests empty_store) !! uid = Some d ->
  user_id d = uid
  /\ tokens d + total_used d = 100 + purchased uid requests.
Proof.
  destruct FIREBASE_AVAILABLE.
  - intros H.
    pose proof (funded_history requests (fun _ => 0) empty_store) as F.
    specialize (F (fun _ => eq_refl) uid). rewrite H in F. exact F.
  - by rewrite history_without_store.
Qed.

(** X12: A purchase of the standard package raises by 100 the balance the owner
    is shown (by a read that goes through), whether or not the owner had a
    record, and touches neither
    the total consumed nor the usage log; an unknown package is refused
    with status 400 before anything else is looked at, and without the
    Firebase service a known package is refused with status 500; a refused
    purchase changes nothing. *)
Theorem purchase_adds_to_the_balance FIREBASE_AVAILABLE now now' uid p s :
  let shown s := fst (get_user_tokens true now' reliable uid s) in
  let after := purchase_tokens FIREBASE_AVAILABLE now uid p s in
  match token_packages !! p with
  | None =>
      after = (inl (Batch.HTTPException 400 (lit "Invalid token package")), s)
  | Some package =>
      pk_tokens package = 100
      /\ if FIREBASE_AVAILABLE
         then fst after
              = inr (Receipt (lit "Successfully purchased 100 tokens") 100
                       (price package))
              /\ tokens (shown (snd after)) = tokens (shown s) + 100
              /\ total_used (shown (snd after)) = total_used (shown s)
              /\ token_usage (snd after) = token_usage s
         else after
              = (inl (Batch.HTTPException 500
                        (lit "Firebase service not available")), s)
  end.
Proof.
  intros shown after. subst shown after. unfold purchase_tokens.
  destruct (token_packages !! p) as [package|] eqn:P; [|done].
  pose proof (token_packages_hundred _ _ P) as E. split; [done|].
  destruct FIREBASE_AVAILABLE; cbn [negb]; [|done].
  rewrite E. split; [done|].
  unfold get_user_tokens, initialize_user_tokens, reliable. cbn [negb].
  destruct (user_tokens s !! uid) as [d|] eqn:L;
    cbn [snd fst user_tokens token_usage]; rewrite lookup_insert_eq;
    cbn [fst tokens total_used initial_doc]; repeat split; lia.
Qed.


(** *** Witnesses *)

Lemma request_touches_one_owner_witness :
  user_tokens (serve true 9 add_fails (Debit "u" 2 "resume_screening")
                 two_owners)
    !! "v"%string
  = Some (TokenDoc "v" 40 60 0 0)
  /\ logged "v" (token_usage
                   (serve true 9 add_fails (Debit "u" 2 "resume_screening")
                      two_owners))
     = 60.
Proof.
  exact (request_touches_one_owner true 9 add_fails
           (Debit "u" 2 "resume_screening") two_owners "v"%string
           ltac:(discriminate)).
Defined.

Lemma balance_never_negative_witness : solvent (history true a_week two_owners).
Proof.
  apply (balance_never_negative true a_week two_owners).
  unfold solvent.
  apply (bool_decide_unpack (map_Forall _ (user_tokens two_owners))).
  vm_compute. exact I.
Defined.

Lemma usage_log_accounts_for_consumption_witness :
  log_consistent (history true a_week empty_store).
Proof.
  apply (usage_log_accounts_for_consumption true a_week).
  - unfold usage_written, a_week. repeat constructor.
  - intros uid. reflexivity.
Defined.

Lemma tokens_are_conserved_witness :
  user_id (TokenDoc "u" 90 110 1 6) = "u"%string
  /\ 90 + 110 = 100 + purchased "u" a_week.
Proof.
  apply (tokens_are_conserved true a_week "u"%string (TokenDoc "u" 90 110 1 6)).
  vm_compute. reflexivity.
Defined.

End TokenAccount.

(* ------------------------------------------------------------------ *)
(** ** Further properties of the batch orchestrator *)

Module BatchFacts.
Import PyStr PyFloat PyExn Categorizer Scorer Ledger Batch.

(** A record is placed in the list of category [c] rightly when [c] is its
    own category and the category of its score. *)
Definition placed (c : Categorizer.category) (d : resume_data) : Prop :=
  category d = c /\ categorize_resume (score d) = c.

(** The list a dictionary of [process_single_resume] is appended to. *)
Definition destination (o : outcome) : Categorizer.category :=
  if success o then out_category o else rejected.

(** The records of one category list. *)
Definition records_of (c : Categorizer.category) (r : results)
  : list resume_data :=
  match c with
  | selected => selected_list r
  | considered => considered_list r
  | rejected => rejected_list r
  end.

Lemma resume_id_inj : Inj (=) (=) resume_id.
Proof.
  intros m n H. unfold resume_id in H. apply app_inv_head in H.
  apply (f_equal string_of_list_ascii) in H. unfold lit in H.
  rewrite !string_of_list_ascii_of_string in H.
  by apply (inj pretty) in H.
Qed.

Section Properties.

Variable FIREBASE_AVAILABLE S3_AVAILABLE ASYNC_GPT_AVAILABLE : bool.
Variable now : Z.
Variable raises_check raises_debit : faults.
Variable http_exception_str : http_exception -> str.

Ltac each_branch :=
  repeat match goal with
         | |- context [match ?x with _ => _ end] => destruct x eqn:?
         end.

(** *** One document *)

Lemma fallback_placed f index e :
  placed rejected (data (fallback f index e)).
Proof. split; [done|]. by vm_compute. Qed.

Lemma process_single_resume_id c f jd user_id index w :
  id (data (fst (Batch.process_single_resume FIREBASE_AVAILABLE S3_AVAILABLE
      ASYNC_GPT_AVAILABLE c f jd user_id index w)))
  = resume_id index.
Proof. unfold Batch.process_single_resume. each_branch; reflexivity. Qed.

Lemma process_single_resume_placed c f jd user_id index w :
  let o := fst (Batch.process_single_resume FIREBASE_AVAILABLE S3_AVAILABLE
      ASYNC_GPT_AVAILABLE c f jd user_id index w) in
  placed (destination o) (data o).
Proof.
  unfold Batch.process_single_resume.
  destruct (let! content := read f in let! _ := mkstemp c in ret content);
    [apply fallback_placed|].
  match goal with
  | |- context [match ?x with inl _ => _ | inr _ => _ end] => destruct x
  end; [apply fallback_placed|].
  by split.
Qed.

Lemma process_single_resume_ledger c f jd user_id index w :
  ledger (snd (Batch.process_single_resume FIREBASE_AVAILABLE S3_AVAILABLE
      ASYNC_GPT_AVAILABLE c f jd user_id index w)) = ledger w.
Proof. unfold Batch.process_single_resume. each_branch; reflexivity. Qed.

Lemma process_single_resume_anonymous c f jd user_id index w :
  given_user user_id = None ->
  let run := Batch.process_single_resume FIREBASE_AVAILABLE S3_AVAILABLE
               ASYNC_GPT_AVAILABLE c f jd user_id index w in
  uploadedFiles (snd run) = uploadedFiles w
  /\ resumeData (snd run) = resumeData w
  /\ s3_url (data (fst run)) = None.
Proof.
  intros Hu. unfold Batch.process_single_resume. rewrite Hu.
  each_branch; by repeat split.
Qed.

Lemma process_single_resume_unreadable c f jd user_id index w e :
  read f = inl e ->
  fst (Batch.process_single_resume FIREBASE_AVAILABLE S3_AVAILABLE
      ASYNC_GPT_AVAILABLE c f jd user_id index w) = fallback f index e.
Proof.
  intros Hr. unfold Batch.process_single_resume. by rewrite Hr.
Qed.

(** *** All documents *)

Lemma gather_ids env resumes : forall index jd user_id w,
  map (fun o => id (data o)) (outcomes (fst (Batch.gather FIREBASE_AVAILABLE S3_AVAILABLE
      ASYNC_GPT_AVAILABLE env resumes index jd user_id w)))
  = map resume_id (seq index (length resumes)).
Proof.
  induction resumes as [|f rest IH]; intros index jd user_id w; simpl; [done|].
  pose proof (process_single_resume_id (env index) f jd user_id index w) as Hf.
  destruct (Batch.process_single_resume _ _ _ _ _ _ _ _ _) as [o w1].
  specialize (IH (S index) jd user_id w1).
  destruct (Batch.gather FIREBASE_AVAILABLE S3_AVAILABLE
      ASYNC_GPT_AVAILABLE env rest (S index) jd user_id w1) as [os w2].
  simpl in *. by rewrite Hf, IH.
Qed.

Lemma gather_placed env resumes : forall index jd user_id w,
  Forall (fun o => placed (destination o) (data o))
         (outcomes (fst (Batch.gather FIREBASE_AVAILABLE S3_AVAILABLE
      ASYNC_GPT_AVAILABLE env resumes index jd user_id w))).
Proof.
  induction resumes as [|f rest IH]; intros index jd user_id w; simpl;
    [by constructor|].
  pose proof (process_single_resume_placed (env index) f jd user_id index w)
    as Hf.
  destruct (Batch.process_single_resume _ _ _ _ _ _ _ _ _) as [o w1].
  specialize (IH (S index) jd user_id w1).
  destruct (Batch.gather FIREBASE_AVAILABLE S3_AVAILABLE
      ASYNC_GPT_AVAILABLE env rest (S index) jd user_id w1) as [os w2].
  simpl in *. by constructor.
Qed.

Lemma gather_ledger env resumes : forall index jd user_id w,
  ledger (snd (Batch.gather FIREBASE_AVAILABLE S3_AVAILABLE
      ASYNC_GPT_AVAILABLE env resumes index jd user_id w)) = ledger w.
Proof.
  induction resumes as [|f rest IH]; intros index jd user_id w; simpl; [done|].
  pose proof (process_single_resume_ledger (env index) f jd user_id index w)
    as Hf.
  destruct (Batch.process_single_resume _ _ _ _ _ _ _ _ _) as [o w1].
  specialize (IH (S index) jd user_id w1).
  destruct (Batch.gather FIREBASE_AVAILABLE S3_AVAILABLE
      ASYNC_GPT_AVAILABLE env rest (S index) jd user_id w1) as [os w2].
  simpl in *. by rewrite IH.
Qed.

Lemma gather_anonymous env resumes : forall index jd user_id w,
  given_user user_id = None ->
  let run := Batch.gather FIREBASE_AVAILABLE S3_AVAILABLE ASYNC_GPT_AVAILABLE
               env resumes index jd user_id w in
  uploadedFiles (snd run) = uploadedFiles w
  /\ resumeData (snd run) = resumeData w
  /\ Forall (fun o => s3_url (data o) = None) (outcomes (fst run)).
Proof.
  induction resumes as [|f rest IH]; intros index jd user_id w Hu; simpl;
    [by repeat split|].
  pose proof (process_single_resume_anonymous (env index) f jd user_id index w
                Hu) as Hf.
  destruct (Batch.process_single_resume _ _ _ _ _ _ _ _ _) as [o w1].
  specialize (IH (S index) jd user_id w1 Hu).
  destruct (Batch.gather FIREBASE_AVAILABLE S3_AVAILABLE
      ASYNC_GPT_AVAILABLE env rest (S index) jd user_id w1) as [os w2].
  simpl in *. destruct IH as (-> & -> & ?), Hf as (-> & -> & ?).
  repeat split; try done. by constructor.
Qed.

(** *** The category lists *)

Lemma records_of_append_to c c' d r :
  records_of c (append_to c' d r)
  = if bool_decide (c = c') then records_of c r ++ [d] else records_of c r.
Proof. destruct c, c'; cbn; by case_bool_decide. Qed.

Lemma organize_destination results_list : forall r,
  organize results_list r
  = foldl (fun r o => append_to (destination o) (data o) r) r
          (outcomes results_list).
Proof.
  induction results_list as [|[e|o] rest IH]; intros r; cbn [organize];
    [done|apply IH|].
  rewrite IH. unfold outcomes. cbn [omap list_omap foldl].
  unfold destination. by destruct (success o).
Qed.

Lemma foldl_append_placed os : forall r,
  (forall c, Forall (placed c) (records_of c r)) ->
  Forall (fun o => placed (destination o) (data o)) os ->
  forall c,
    Forall (placed c)
      (records_of c (foldl (fun r o => append_to (destination o) (data o) r)
                       r os)).
Proof.
  induction os as [|o os IH]; intros r Hr Hos c; cbn [foldl]; [apply Hr|].
  inversion Hos; subst. apply IH; [|done].
  intros c'. rewrite records_of_append_to. case_bool_decide; [|apply Hr].
  subst. apply Forall_app. split; [apply Hr|]. by constructor.
Qed.

Lemma foldl_append_keeps os : forall r c d,
  In d (records_of c r) ->
  In d (records_of c (foldl (fun r o => append_to (destination o) (data o) r)
                        r os)).
Proof.
  induction os as [|o os IH]; intros r c d Hd; cbn [foldl]; [done|].
  apply IH. rewrite records_of_append_to. case_bool_decide; [|done].
  apply in_or_app. by left.
Qed.

Lemma foldl_append_in os : forall r o,
  In o os ->
  In (data o)
     (records_of (destination o)
        (foldl (fun r o => append_to (destination o) (data o) r) r os)).
Proof.
  induction os as [|o' os IH]; intros r o Ho; cbn [foldl]; [done|].
  destruct Ho as [->|Ho]; [|by apply IH].
  apply foldl_append_keeps. rewrite records_of_append_to.
  rewrite bool_decide_eq_true_2 by done. apply in_or_app. right. by left.
Qed.

Lemma gather_unreadable env resumes f e : forall i index jd user_id w,
  resumes !! i = Some f ->
  read f = inl e ->
  In (fallback f (index + i) e)
     (outcomes (fst (Batch.gather FIREBASE_AVAILABLE S3_AVAILABLE
                       ASYNC_GPT_AVAILABLE env resumes index jd user_id w))).
Proof.
  induction resumes as [|f0 rest IH]; intros i index jd user_id w Hi Hr;
    [done|].
  cbn [Batch.gather].
  pose proof (process_single_resume_unreadable (env index) f0 jd user_id index
                w e) as Hf.
  destruct (Batch.process_single_resume _ _ _ _ _ _ _ _ _) as [o w1].
  destruct i as [|i]; cbn in Hi.
  - injection Hi as ->. specialize (Hf Hr). cbn [fst] in Hf. subst o.
    destruct (Batch.gather _ _ _ env rest (S index) jd user_id w1) as [os w2].
    left. by rewrite Nat.add_0_r.
  - specialize (IH i (S index) jd user_id w1 Hi Hr).
    destruct (Batch.gather _ _ _ env rest (S index) jd user_id w1) as [os w2].
    right. by replace (index + S i)%nat with (S index + i)%nat by lia.
Qed.

(** *** The response *)

(** X14: The records of a response carry the ids [resume_0] ... [resume_{N-1}],
    each once: an id is the position of the document in the request, and
    no two records share one. *)
Theorem record_ids_are_positions env jd_env resumes job_description
    job_description_file user_id w :
  match fst (Batch.process_resumes FIREBASE_AVAILABLE S3_AVAILABLE
               ASYNC_GPT_AVAILABLE now raises_check raises_debit http_exception_str env jd_env resumes
               job_description job_description_file user_id w) with
  | inr r =>
      map id (all_records (resp_data r))
      ≡ₚ map resume_id (seq 0 (length resumes))
      /\ NoDup (map id (all_records (resp_data r)))
  | inl _ => True
  end.
Proof.
  unfold Batch.process_resumes.
  destruct (preflight FIREBASE_AVAILABLE now raises_check (length resumes) user_id w)
    as [[e0|[]] w1]; [done|].
  destruct (final_job_description _ _ _) as [e0|final]; [done|].
  pose proof (gather_ids env resumes 0 final user_id w1) as Hids.
  destruct (Batch.gather _ _ _ env resumes 0 final user_id w1)
    as [results_list w2].
  cbn [fst] in Hids.
  assert (map id (all_records (organize results_list empty_results))
          ≡ₚ map resume_id (seq 0 (length resumes))) as Hp.
  { rewrite organize_records. cbn [all_records empty_results selected_list
      considered_list rejected_list app]. by rewrite map_map, Hids. }
  assert (NoDup (map id (all_records (organize results_list empty_results))))
    as Hn.
  { rewrite Hp. apply (NoDup_fmap_2 resume_id (Inj0 := resume_id_inj)).
    apply NoDup_seq. }
  destruct (given_user user_id) as [uid|]; [|done].
  by destruct (use_tokens _ _ _ _ _ _ _).
Qed.

(** X15: Every record of a response sits in the list its score dictates: the
    records of the selected list have the category selected, which is the
    category of their score, and likewise for the two other lists.  The
    fallback record of a failed document, with its score 0.0, is consistent
    with its place among the rejected. *)
Theorem records_are_placed_by_score env jd_env resumes job_description
    job_description_file user_id w :
  match fst (Batch.process_resumes FIREBASE_AVAILABLE S3_AVAILABLE
               ASYNC_GPT_AVAILABLE now raises_check raises_debit http_exception_str env jd_env resumes
               job_description job_description_file user_id w) with
  | inr r =>
      Forall (placed selected) (selected_list (resp_data r))
      /\ Forall (placed considered) (considered_list (resp_data r))
      /\ Forall (placed rejected) (rejected_list (resp_data r))
  | inl _ => True
  end.
Proof.
  unfold Batch.process_resumes.
  destruct (preflight FIREBASE_AVAILABLE now raises_check (length resumes) user_id w)
    as [[e0|[]] w1]; [done|].
  destruct (final_job_description _ _ _) as [e0|final]; [done|].
  pose proof (gather_placed env resumes 0 final user_id w1) as Hpl.
  destruct (Batch.gather _ _ _ env resumes 0 final user_id w1)
    as [results_list w2].
  cbn [fst] in Hpl.
  assert (forall c, Forall (placed c)
            (records_of c (organize results_list empty_results))) as H.
  { rewrite organize_destination. apply foldl_append_placed; [|done].
    intros []; constructor. }
  pose proof (H selected). pose proof (H considered). pose proof (H rejected).
  destruct (given_user user_id) as [uid|]; [|done].
  by destruct (use_tokens _ _ _ _ _ _ _).
Qed.

(** X16: A run either fails with status 500 before the pipeline of any document
    has started, having stored nothing and logged no usage, or it starts
    the pipeline of every submitted document, in the order of the
    request. *)
Theorem run_fails_early_or_starts_everything env jd_env resumes
    job_description job_description_file user_id w :
  let run := Batch.process_resumes FIREBASE_AVAILABLE S3_AVAILABLE
               ASYNC_GPT_AVAILABLE now raises_check raises_debit http_exception_str env jd_env resumes
               job_description job_description_file user_id w in
  match fst run with
  | inl e =>
      status_code e = 500
      /\ started (snd run) = started w
      /\ uploadedFiles (snd run) = uploadedFiles w
      /\ resumeData (snd run) = resumeData w
      /\ token_usage (ledger (snd run)) = token_usage (ledger w)
  | inr r =>
      started (snd run) = started w ++ map filename resumes
      /\ total_uploaded (resp_metadata r) = length resumes
  end.
Proof.
  intros run. subst run. unfold Batch.process_resumes.
  assert (let w1 := snd (preflight FIREBASE_AVAILABLE now raises_check (length resumes)
                           user_id w) in
          started w1 = started w /\ uploadedFiles w1 = uploadedFiles w
          /\ resumeData w1 = resumeData w
          /\ token_usage (ledger w1) = token_usage (ledger w)) as Hpre.
  { unfold preflight. destruct (given_user user_id) as [uid|]; [|done].
    pose proof (proj1 (get_user_tokens_store FIREBASE_AVAILABLE now
                         raises_check uid (ledger w))) as Hu.
    destruct (get_user_tokens FIREBASE_AVAILABLE now raises_check uid
                (ledger w))
      as [doc l].
    by destruct (tokens doc <? _). }
  destruct (preflight FIREBASE_AVAILABLE now raises_check (length resumes) user_id w)
    as [[e0|[]] w1]; cbn [snd] in Hpre; [done|].
  destruct (final_job_description _ _ _) as [e0|final]; [done|].
  pose proof (gather_started FIREBASE_AVAILABLE S3_AVAILABLE
                ASYNC_GPT_AVAILABLE env resumes 0 final user_id w1) as Hs.
  destruct (Batch.gather _ _ _ env resumes 0 final user_id w1)
    as [results_list w2].
  cbn [snd] in Hs. destruct Hpre as (Hw & _).
  destruct (given_user user_id) as [uid|]; cbn [fst snd].
  - destruct (use_tokens _ _ _ _ _ _ _). cbn. by rewrite Hs, Hw.
  - by rewrite Hs, Hw.
Qed.

(** X17: The job description of a run is never empty.  When a file is uploaded
    and can be read, its text is the job description and the text field is
    ignored, so that a file with no text fails the request even when a text
    was given; the text field is used when there is no file or the file
    cannot be read.  Every failure has status 400. *)
Theorem job_description_resolution jd_env job_description
    job_description_file :
  match final_job_description jd_env job_description job_description_file
  with
  | inr final =>
      truthy final = true
      /\ match job_description_file with
         | Some f =>
             match jd_file_text jd_env f with
             | inr jd_text => final = jd_text
             | inl _ => job_description = Some final
             end
         | None => job_description = Some final
         end
  | inl e =>
      status_code e = 400
      /\ match job_description_file with
         | Some f =>
             match jd_file_text jd_env f with
             | inr jd_text => jd_text = []
             | inl _ => truthy_opt job_description = false
             end
         | None => truthy_opt job_description = false
         end
  end.
Proof.
  unfold final_job_description.
  destruct job_description_file as [f|].
  - destruct (jd_file_text jd_env f) as [e|jd_text].
    + destruct job_description as [[|c t]|]; by cbn.
    + by destruct jd_text.
  - destruct job_description as [[|c t]|]; by cbn.
Qed.

End Properties.

Section Charging.

Variable S3_AVAILABLE ASYNC_GPT_AVAILABLE : bool.
Variable now : Z.
Variable raises_check raises_debit : faults.
Variable http_exception_str : http_exception -> str.

(** X18: With the Firebase service, every response of a run for an owner
    reports one token used per submitted document, whether or not the debit
    went through: the run ignores what [use_tokens] returns, and its ledger
    is what that debit leaves of the ledger after the token check.  When
    the read of the token check and the store calls of the debit go
    through, the owner has been charged exactly that: the balance is down
    by the number of documents and not below zero, the total consumed is up
    by it, and the usage log has one more event, for the whole batch.  When
    the first read or the update of the debit raises, nothing is charged.
    A run that fails logs no usage.  (Requests are served one at a time:
    the owner's record is not changed by others between the check and the
    debit.) *)
Theorem served_batch_costs_one_token_per_document env jd_env resumes
    job_description job_description_file user_id uid w :
  given_user user_id = Some uid ->
  let count := Z.of_nat (length resumes) in
  let before := fst (get_user_tokens true now raises_check uid (ledger w)) in
  let checked := snd (get_user_tokens true now raises_check uid (ledger w)) in
  let run := Batch.process_resumes true S3_AVAILABLE ASYNC_GPT_AVAILABLE now
               raises_check raises_debit http_exception_str env jd_env resumes
               job_description job_description_file user_id w in
  match fst run with
  | inr r =>
      tokens_used (resp_metadata r) = count
      /\ ledger (snd run)
         = snd (use_tokens true now raises_debit uid count "resume_screening"
                  checked)
      /\ (raises_check read_get = None ->
          (forall c, raises_debit c = None) ->
          user_tokens (ledger (snd run)) !! uid
          = Some (TokenDoc (Ledger.user_id before) (tokens before - count)
                    (total_used before + count) (created_at before) now)
          /\ 0 <= tokens before - count
          /\ token_usage (ledger (snd run))
             = token_usage (ledger w)
               ++ [UsageEvent uid count "resume_screening" now])
      /\ (raises_debit debit_get <> None
          \/ raises_debit debit_update <> None ->
          token_usage (ledger (snd run)) = token_usage (ledger w)
          /\ forall d, user_tokens checked !! uid = Some d ->
                       user_tokens (ledger (snd run)) !! uid = Some d)
  | inl _ => token_usage (ledger (snd run)) = token_usage (ledger w)
  end.
Proof.
  intros Hu count before checked run. subst count before checked run.
  unfold Batch.process_resumes, preflight. rewrite Hu.
  unfold calculate_tokens_needed.
  pose proof (get_user_tokens_store true now raises_check uid (ledger w))
    as [Hlog _].
  pose proof (get_user_tokens_reported true now raises_check uid (ledger w))
    as Hrep.
  assert (raises_check read_get = None ->
          held now uid
            (snd (get_user_tokens true now raises_check uid (ledger w)))
            (fst (get_user_tokens true now raises_check uid (ledger w))))
    as Hheld.
  { intros Hr. unfold get_user_tokens, initialize_user_tokens, held.
    cbn [negb]. rewrite Hr.
    destruct (user_tokens (ledger w) !! uid) as [d|] eqn:L; cbn [fst snd];
      [by left|].
    destruct (raises_check init_get); cbn [snd]; [by right|].
    destruct (raises_check init_set); cbn [snd user_tokens]; [by right|].
    left. by rewrite lookup_insert_eq. }
  destruct (get_user_tokens true now raises_check uid (ledger w)) as [doc l].
  cbn [fst snd] in *.
  destruct (tokens doc <? Z.of_nat (length resumes)) eqn:T; [done|].
  apply Z.ltb_ge in T.
  destruct (final_job_description _ _ _) as [e0|final]; [done|].
  pose proof (gather_ledger true S3_AVAILABLE ASYNC_GPT_AVAILABLE env resumes
                0 final user_id (set_ledger l w)) as Hled.
  destruct (Batch.gather _ _ _ env resumes 0 final user_id (set_ledger l w))
    as [results_list w2].
  cbn [snd set_ledger ledger] in Hled. rewrite Hled.
  destruct (use_tokens true now raises_debit uid (Z.of_nat (length resumes))
              "resume_screening" l) as [ok l'] eqn:U.
  cbn [fst snd set_ledger ledger resp_metadata tokens_used].
  split; [done|]. split; [done|]. split.
  - intros Hr Hall.
    rewrite (use_tokens_served now raises_debit uid _ _ l doc Hall
               (Hheld Hr) T) in U.
    injection U as <- <-. cbn [user_tokens token_usage].
    rewrite lookup_insert_eq, Hlog. unfold debited. split; [done|].
    split; [lia|done].
  - intros Hfail. rewrite <- Hlog.
    assert (raises_debit debit_get <> None -> l' = l) as Hget.
    { intros Hg. unfold use_tokens in U. cbn [negb] in U.
      destruct (raises_debit debit_get); [by injection U|done]. }
    destruct (use_tokens_cases now raises_debit uid
                (Z.of_nat (length resumes)) "resume_screening" l)
      as [E|[[L E]|[(d & L & E)|(L & G & S & E)]]]; rewrite E in U;
      clear E.
    + injection U as _ <-. by split.
    + injection U as _ <-. split; [done|]. intros d. by rewrite L.
    + destruct (debit_cases now raises_debit uid (Z.of_nat (length resumes))
                  "resume_screening" d l)
        as [[_ E]|[(_ & _ & E)|[(_ & Hup & _)|(_ & Hup & _)]]];
        try (rewrite E in U; injection U as _ <-; by split);
        destruct Hfail as [Hfail|Hfail]; try done;
        rewrite (Hget Hfail); by split.
    + destruct (debit_cases now raises_debit uid (Z.of_nat (length resumes))
                  "resume_screening" (initial_doc now uid)
                  (Store (<[uid := initial_doc now uid]> (user_tokens l))
                         (token_usage l)))
        as [[_ E]|[(_ & _ & E)|[(_ & Hup & _)|(_ & Hup & _)]]];
        try (rewrite E in U; injection U as _ <-; split; [done|];
             intros d; by rewrite L);
        destruct Hfail as [Hfail|Hfail]; try done;
        rewrite (Hget Hfail); by split.
Qed.


(** X19: A run without an owner, also one whose owner id is the empty string,
    touches neither the ledger nor the two collections; its response
    reports no token used, and none of its records has a storage link. *)
Theorem anonymous_run_stores_nothing FIREBASE_AVAILABLE env jd_env resumes
    job_description job_description_file user_id w :
  given_user user_id = None ->
  let run := Batch.process_resumes FIREBASE_AVAILABLE S3_AVAILABLE
               ASYNC_GPT_AVAILABLE now raises_check raises_debit http_exception_str env jd_env resumes
               job_description job_description_file user_id w in
  ledger (snd run) = ledger w
  /\ uploadedFiles (snd run) = uploadedFiles w
  /\ resumeData (snd run) = resumeData w
  /\ match fst run with
     | inr r =>
         tokens_used (resp_metadata r) = 0
         /\ Forall (fun d => s3_url d = None) (all_records (resp_data r))
     | inl _ => True
     end.
Proof.
  intros Hu run. subst run. unfold Batch.process_resumes, preflight.
  rewrite Hu.
  destruct (final_job_description _ _ _) as [e0|final]; [done|].
  pose proof (gather_ledger FIREBASE_AVAILABLE S3_AVAILABLE
                ASYNC_GPT_AVAILABLE env resumes 0 final user_id w) as Hled.
  pose proof (gather_anonymous FIREBASE_AVAILABLE S3_AVAILABLE
                ASYNC_GPT_AVAILABLE env resumes 0 final user_id w Hu) as Ha.
  destruct (Batch.gather _ _ _ env resumes 0 final user_id w)
    as [results_list w2].
  cbn [fst snd] in *. destruct Ha as (? & ? & Hall).
  do 3 (split; [done|]). split; [done|]. cbn [resp_data].
  rewrite organize_records. cbn [all_records empty_results selected_list
    considered_list rejected_list app].
  by apply Forall_fmap.
Qed.

(** X20: A document whose upload cannot be read does not fail the run: its
    fallback record, with the name "Unknown" and the score 0.0, is in the
    rejected list of the response. *)
Theorem unreadable_upload_is_rejected FIREBASE_AVAILABLE env jd_env resumes
    job_description job_description_file user_id w i f e :
  resumes !! i = Some f ->
  read f = inl e ->
  match fst (Batch.process_resumes FIREBASE_AVAILABLE S3_AVAILABLE
               ASYNC_GPT_AVAILABLE now raises_check raises_debit http_exception_str env jd_env resumes
               job_description job_description_file user_id w) with
  | inr r => In (data (fallback f i e)) (rejected_list (resp_data r))
  | inl _ => True
  end.
Proof.
  intros Hi Hr. unfold Batch.process_resumes.
  destruct (preflight FIREBASE_AVAILABLE now raises_check (length resumes) user_id w)
    as [[e0|[]] w1]; [done|].
  destruct (final_job_description _ _ _) as [e0|final]; [done|].
  pose proof (gather_unreadable FIREBASE_AVAILABLE S3_AVAILABLE
                ASYNC_GPT_AVAILABLE env resumes f e i 0 final user_id w1 Hi Hr)
    as Hin.
  destruct (Batch.gather _ _ _ env resumes 0 final user_id w1)
    as [results_list w2].
  cbn [fst plus] in Hin.
  assert (In (data (fallback f i e))
            (rejected_list (organize results_list empty_results))) as H.
  { rewrite organize_destination.
    apply (foldl_append_in _ empty_results _ Hin). }
  destruct (given_user user_id) as [uid|]; [|done].
  by destruct (use_tokens _ _ _ _ _ _ _).
Qed.

End Charging.

(** *** Witnesses *)

(** Three documents for an owner with three tokens left. *)
Lemma served_batch_costs_one_token_per_document_witness :
  let run := toy_run three_documents (Some "u"%string) three_left in
  match fst run with
  | inr r =>
      tokens_used (resp_metadata r) = 3
      /\ ledger (snd run)
         = snd (use_tokens true 1 reliable "u" 3 "resume_screening"
                  three_left)
      /\ (reliable read_get = None ->
          (forall c, reliable c = None) ->
          user_tokens (ledger (snd run)) !! "u"%string
          = Some (TokenDoc "u" (3 - 3) (0 + 3) 0 1)
          /\ 0 <= 3 - 3
          /\ token_usage (ledger (snd run))
             = [] ++ [UsageEvent "u" 3 "resume_screening" 1])
      /\ (reliable debit_get <> None \/ reliable debit_update <> None ->
          token_usage (ledger (snd run)) = []
          /\ forall d, user_tokens three_left !! "u"%string = Some d ->
                       user_tokens (ledger (snd run)) !! "u"%string = Some d)
  | inl _ => token_usage (ledger (snd run)) = []
  end.
Proof.
  exact (served_batch_costs_one_token_per_document false false 1 reliable
           reliable starlette_str
           (fun _ => toy_collaborators) toy_collaborators three_documents
           (Some (lit "Looking for a Python engineer")) None
           (Some "u"%string) "u"%string (fresh_world three_left) eq_refl).
Defined.

(** The same three documents, without an owner. *)
Lemma anonymous_run_stores_nothing_witness :
  let run := toy_run three_documents None three_left in
  ledger (snd run) = three_left
  /\ uploadedFiles (snd run) = []
  /\ resumeData (snd run) = []
  /\ match fst run with
     | inr r =>
         tokens_used (resp_metadata r) = 0
         /\ Forall (fun d => s3_url d = None) (all_records (resp_data r))
     | inl _ => True
     end.
Proof.
  exact (anonymous_run_stores_nothing false false 1 reliable reliable
           starlette_str true
           (fun _ => toy_collaborators) toy_collaborators three_documents
           (Some (lit "Looking for a Python engineer")) None None
           (fresh_world three_left) eq_refl).
Defined.

(** The third of the three documents cannot be read. *)
Lemma unreadable_upload_is_rejected_witness :
  match fst (toy_run three_documents None empty_store) with
  | inr r =>
      In (data (fallback
                  (UploadFile (lit "lost.pdf")
                     (inl (Exn "OSError" "cannot read upload")))
                  2 (Exn "OSError" "cannot read upload")))
         (rejected_list (resp_data r))
  | inl _ => True
  end.
Proof.
  exact (unreadable_upload_is_rejected false false 1 reliable reliable
           starlette_str true
           (fun _ => toy_collaborators) toy_collaborators three_documents
           (Some (lit "Looking for a Python engineer")) None None
           (fresh_world empty_store) 2%nat
           (UploadFile (lit "lost.pdf")
              (inl (Exn "OSError" "cannot read upload")))
           (Exn "OSError" "cannot read upload") eq_refl eq_refl).
Defined.

End BatchFacts.

(* ------------------------------------------------------------------ *)
(** ** The background batch task (tasks/resume_tasks.py) *)

Module CeleryBatch.
Import PyStr PyFloat PyExn Categorizer Scorer.

(** An element of [resume_files_data]: a dictionary that should have the
    keys "filename", "content" (base64) and "file_type". *)
Record resume_file := ResumeFile {
  rf_filename : option str;
  rf_content : option str;
  rf_file_type : option str
}.

(** [d[key]]: a missing key raises [KeyError]. *)
Definition item {A} (key : string) (v : option A) : result A :=
  match v with
  | Some x => inr x
  | None => inl (Exn "KeyError" ("'" ++ key ++ "'"))
  end.

(** What one resume meets outside the program: the collaborators of the
    pipeline, the task's state backend, the base64 decoder and the two
    Firestore writes. *)
Record worker := Worker {
  base : Batch.collaborators;
  update_state : result unit;
  b64decode : str -> result Batch.bytes;
  store_resume_data : result unit;
  store_uploaded_file : result unit
}.

(** The progress states published, and the two collections. *)
Record state := State {
  progress : list (nat * nat * str);
  resumeData : list (string * Batch.resume_data);
  uploadedFiles : list (string * str)
}.

(** The dictionary the task returns. *)
Record response := Response {
  data : Batch.results;
  total_processed : nat;
  processed_at : Z;
  user_id : option string
}.

Definition batch_size : nat := 5.

(** [range(start, stop, step)] for a positive step. *)
Fixpoint range_from (fuel start stop step : nat) : list nat :=
  match fuel with
  | O => []
  | S fuel =>
      if (start <? stop)%nat
      then start :: range_from fuel (start + step) stop step
      else []
  end.

Definition range (start stop step : nat) : list nat :=
  range_from stop start stop step.

(** [l[a:b]] *)
Definition slice {A} (a b : nat) (l : list A) : list A :=
  firstn (b - a) (skipn a l).

Section WithConfiguration.

Variable FIREBASE_AVAILABLE S3_AVAILABLE : bool.
Variable now : Z.

(** The fallback entry of the outer [except]. *)
Definition fallback (resume_data : resume_file) (processed : nat) (e : exn)
  : Categorizer.category * Batch.resume_data :=
  (rejected,
   Batch.ResumeData (Batch.resume_id processed) (lit "Unknown") [] [] None
     (default (lit "unknown") (rf_filename resume_data)) f0_0 rejected None
     (JString (lit "Error processing resume: " ++ Batch.exn_str e))
     (JArray []) (JArray [])).

(** The body of the inner loop, for one resume: the entry appended to
    [batch_results], the new value of [processed], and the state. *)
Definition process_one (c : worker) (total : nat) (resume_data : resume_file)
    (job_description : str) (user_id : option string) (processed : nat)
    (w : state)
  : (Categorizer.category * Batch.resume_data) * nat * state :=
  match (let! filename := item "filename" (rf_filename resume_data) in
         let! _ := update_state c in
         ret filename) with
  | inl e => (fallback resume_data processed e, S processed, w)
  | inr filename =>
      let w := State (progress w
                      ++ [(processed, total, lit "Processing " ++ filename)])
                     (resumeData w) (uploadedFiles w) in
      match (let! encoded := item "content" (rf_content resume_data) in
             let! content := b64decode c encoded in
             let! file_type := item "file_type" (rf_file_type resume_data) in
             let! _ := Batch.mkstemp (base c) in
             let text :=
               if eqb file_type (lit "pdf")
               then Batch.extract_text_from_pdf (base c) content
               else if eqb file_type (lit "doc") || eqb file_type (lit "docx")
               then Batch.extract_text_from_docx (base c) content
               else Batch.decode_utf8 (base c) content in
             let email := Batch.extract_email_from_text (base c) text in
             let name := NameExtractor.extract_name_from_text text in
             let phone := Batch.extract_phone_from_text (base c) text in
             let validated_data :=
               Validator.validate_extracted_data name email phone in
             let s3_url :=
               match Batch.given_user user_id with
               | Some uid =>
                   if S3_AVAILABLE
                   then Batch.upload_resume_from_bytes (base c) content uid
                          filename
                   else None
               | None => None
               end in
             let! analysis :=
               analyze_resume_async (Batch.score_chat (base c))
                 (Batch.json_loads (base c)) (Batch.float_of_str (base c))
                 text job_description in
             let score := Scorer.score analysis in
             let category := categorize_resume score in
             ret (category,
                  Batch.ResumeData (Batch.resume_id processed)
                    (Validator.name validated_data)
                    (Validator.email validated_data)
                    (Validator.phone validated_data) s3_url filename score
                    category (Some text) (Scorer.explanation analysis)
                    (Scorer.strengths analysis) (Scorer.weaknesses analysis)))
      with
      | inl e => (fallback resume_data processed e, S processed, w)
      | inr (category, resume_result) =>
          let w :=
            match Batch.given_user user_id with
            | Some uid =>
                if FIREBASE_AVAILABLE
                then
                  match store_resume_data c with
                  | inl _ => w
                  | inr _ =>
                      let w := State (progress w)
                                 (resumeData w ++ [(uid, resume_result)])
                                 (uploadedFiles w) in
                      match store_uploaded_file c with
                      | inl _ => w
                      | inr _ =>
                          State (progress w) (resumeData w)
                            (uploadedFiles w ++ [(uid, filename)])
                      end
                  end
                else w
            | None => w
            end in
          ((category, resume_result), S processed, w)
      end
  end.

(** The inner loop over one batch; [env i] is what the resume processed
    as number [i] meets. *)
Fixpoint process_batch (env : nat -> worker) (total : nat)
    (batch : list resume_file) (job_description : str)
    (user_id : option string) (processed : nat) (w : state)
  : list (Categorizer.category * Batch.resume_data) * nat * state :=
  match batch with
  | [] => ([], processed, w)
  | resume_data :: rest =>
      let '(entry, processed, w) :=
        process_one (env processed) total resume_data job_description user_id
          processed w in
      let '(batch_results, processed, w) :=
        process_batch env total rest job_description user_id processed w in
      (entry :: batch_results, processed, w)
  end.

(** [for category, resume_result in batch_results:
       results[category].append(resume_result)] *)
Definition add_batch (results : Batch.results)
    (batch_results : list (Categorizer.category * Batch.resume_data))
  : Batch.results :=
  foldl (fun results x => Batch.append_to (fst x) (snd x) results) results
        batch_results.

(** The body of the outer loop, for the batch that starts at
    [batch_start]. *)
Definition one_batch (env : nat -> worker)
    (resume_files_data : list resume_file) (job_description : str)
    (user_id : option string)
    (acc : Batch.results * nat * state) (batch_start : nat)
  : Batch.results * nat * state :=
  let '(results, processed, w) := acc in
  let total := length resume_files_data in
  let batch_end := Nat.min (batch_start + batch_size) total in
  let batch := slice batch_start batch_end resume_files_data in
  let '(batch_results, processed, w) :=
    process_batch env total batch job_description user_id processed w in
  (add_batch results batch_results, processed, w).

Definition process_resume_batch (env : nat -> worker)
    (resume_files_data : list resume_file) (job_description : str)
    (user_id : option string) (w : state) : response * state :=
  let total := length resume_files_data in
  let '(results, processed, w) :=
    foldl (one_batch env resume_files_data job_description user_id)
          (Batch.empty_results, O, w) (range 0 total batch_size) in
  (Response results processed now user_id, w).

End WithConfiguration.

(** *** Slices *)

Lemma skipn_slice {A} (a b : nat) (l : list A) :
  (a <= b)%nat -> skipn a l = slice a b l ++ skipn b l.
Proof.
  intros H. unfold slice.
  replace b with ((b - a) + a)%nat at 2 by lia.
  by rewrite <- skipn_skipn, firstn_skipn.
Qed.

Section Properties.

Variable FIREBASE_AVAILABLE S3_AVAILABLE : bool.
Variable now : Z.

(** *** One resume *)

Lemma process_one_processed c total rd jd uid processed w :
  snd (fst (process_one FIREBASE_AVAILABLE S3_AVAILABLE c total rd jd uid
              processed w))
  = S processed.
Proof.
  unfold process_one.
  repeat match goal with
         | |- context [match ?x with _ => _ end] => destruct x
         end; reflexivity.
Qed.

Lemma process_one_entry c total rd jd uid processed w :
  let entry := fst (fst (process_one FIREBASE_AVAILABLE S3_AVAILABLE c total
                           rd jd uid processed w)) in
  Batch.id (snd entry) = Batch.resume_id processed
  /\ BatchFacts.placed (fst entry) (snd entry).
Proof.
  assert (forall e, BatchFacts.placed rejected (snd (fallback rd processed e)))
    as Hf.
  { intros e. split; [done|]. by vm_compute. }
  unfold process_one, bind, ret, item.
  repeat match goal with
         | |- context [match ?x with _ => _ end] =>
             lazymatch x with
             | context [match _ with _ => _ end] => fail
             | _ => destruct x
             end
         end; cbn [fst snd]; (split; [reflexivity|]);
    first [apply Hf | by split].
Qed.

(** *** One batch *)

Lemma process_batch_app env total l1 : forall l2 jd uid processed w,
  process_batch FIREBASE_AVAILABLE S3_AVAILABLE env total (l1 ++ l2) jd uid
    processed w
  = let '(r1, p1, w1) :=
      process_batch FIREBASE_AVAILABLE S3_AVAILABLE env total l1 jd uid
        processed w in
    let '(r2, p2, w2) :=
      process_batch FIREBASE_AVAILABLE S3_AVAILABLE env total l2 jd uid p1 w1
    in
    (r1 ++ r2, p2, w2).
Proof.
  induction l1 as [|rd l1 IH]; intros l2 jd uid processed w.
  - cbn [app process_batch].
    by destruct (process_batch _ _ env total l2 jd uid processed w)
      as [[r2 p2] w2].
  - cbn [app process_batch].
    destruct (process_one _ _ (env processed) total rd jd uid processed w)
      as [[entry p1] w1].
    rewrite IH.
    destruct (process_batch _ _ env total l1 jd uid p1 w1) as [[r1 p1'] w1'].
    by destruct (process_batch _ _ env total l2 jd uid p1' w1')
      as [[r2 p2] w2].
Qed.

Lemma process_batch_entries env total batch : forall jd uid processed w,
  let run := process_batch FIREBASE_AVAILABLE S3_AVAILABLE env total batch jd
               uid processed w in
  snd (fst run) = (processed + length batch)%nat
  /\ map (fun x => Batch.id (snd x)) (fst (fst run))
     = map Batch.resume_id (seq processed (length batch))
  /\ Forall (fun x => BatchFacts.placed (fst x) (snd x)) (fst (fst run)).
Proof.
  induction batch as [|rd rest IH]; intros jd uid processed w;
    cbn [process_batch length seq map].
  - cbn. split; [lia|]. by split.
  - pose proof (process_one_processed (env processed) total rd jd uid
                  processed w) as Hp.
    pose proof (process_one_entry (env processed) total rd jd uid processed w)
      as He.
    destruct (process_one _ _ (env processed) total rd jd uid processed w)
      as [[entry p1] w1].
    cbn [fst snd] in Hp, He. subst p1. destruct He as [Hid Hpl].
    specialize (IH jd uid (S processed) w1).
    destruct (process_batch _ _ env total rest jd uid (S processed) w1)
      as [[rs p2] w2].
    cbn [fst snd map] in *. destruct IH as (-> & IHid & IHpl).
    split; [lia|]. split; [by rewrite Hid, IHid|by constructor].
Qed.

Lemma add_batch_app results l1 l2 :
  add_batch results (l1 ++ l2) = add_batch (add_batch results l1) l2.
Proof. unfold add_batch. by rewrite foldl_app. Qed.

Lemma add_batch_records l : forall results,
  Batch.all_records (add_batch results l)
  ≡ₚ Batch.all_records results ++ map snd l.
Proof.
  induction l as [|[c d] l IH]; intros results; cbn [add_batch foldl map].
  - by rewrite app_nil_r.
  - fold (add_batch (Batch.append_to c d results) l).
    rewrite IH, Batch.all_records_append_to. cbn [fst snd].
    by rewrite <- app_assoc.
Qed.

Lemma add_batch_placed l : forall results,
  (forall c, Forall (BatchFacts.placed c) (BatchFacts.records_of c results)) ->
  Forall (fun x => BatchFacts.placed (fst x) (snd x)) l ->
  forall c,
    Forall (BatchFacts.placed c) (BatchFacts.records_of c (add_batch results l)).
Proof.
  induction l as [|[c' d] l IH]; intros results Hr Hl c;
    cbn [add_batch foldl]; [apply Hr|].
  fold (add_batch (Batch.append_to c' d results) l).
  inversion Hl; subst. apply IH; [|done].
  intros c0. rewrite BatchFacts.records_of_append_to. cbn [fst snd].
  case_bool_decide; [|apply Hr].
  subst. apply Forall_app. split; [apply Hr|]. by constructor.
Qed.

(** *** The batches *)

Lemma batches_are_one_pass env resume_files_data jd uid fuel :
  forall start results processed w,
  (length resume_files_data <= fuel + start)%nat ->
  foldl (one_batch FIREBASE_AVAILABLE S3_AVAILABLE env resume_files_data jd uid)
        (results, processed, w)
        (range_from fuel start (length resume_files_data) batch_size)
  = let '(batch_results, processed, w) :=
      process_batch FIREBASE_AVAILABLE S3_AVAILABLE env
        (length resume_files_data) (skipn start resume_files_data) jd uid
        processed w in
    (add_batch results batch_results, processed, w).
Proof.
  induction fuel as [|fuel IH]; intros start results processed w Hf;
    cbn [range_from].
  - rewrite skipn_all2 by lia. done.
  - destruct (Nat.ltb_spec start (length resume_files_data)) as [Hlt|Hge].
    2:{ rewrite skipn_all2 by lia. done. }
    cbn [foldl one_batch].
    set (batch_end := Nat.min (start + batch_size) (length resume_files_data)).
    rewrite (skipn_slice start batch_end resume_files_data)
      by (unfold batch_end, batch_size; lia).
    rewrite process_batch_app.
    destruct (process_batch _ _ env (length resume_files_data)
                (slice start batch_end resume_files_data) jd uid processed w)
      as [[r1 p1] w1].
    rewrite IH by (unfold batch_size; lia).
    assert (skipn (start + batch_size) resume_files_data
            = skipn batch_end resume_files_data) as ->.
    { unfold batch_end.
      destruct (Nat.le_ge_cases (start + batch_size) (length resume_files_data)).
      - by rewrite Nat.min_l.
      - rewrite Nat.min_r by done. by rewrite !skipn_all2 by lia. }
    destruct (process_batch _ _ env (length resume_files_data)
                (skipn batch_end resume_files_data) jd uid p1 w1)
      as [[r2 p2] w2].
    by rewrite add_batch_app.
Qed.

(** X21: Working in batches of five cannot be observed in the result: the
    task returns, and leaves behind, what one pass of the inner loop over
    the whole list gives, with the records of each category in the order of
    the resumes. *)
Theorem batches_cannot_be_observed env resume_files_data job_description
    user_id w :
  process_resume_batch FIREBASE_AVAILABLE S3_AVAILABLE now env
    resume_files_data job_description user_id w
  = let '(batch_results, processed, w) :=
      process_batch FIREBASE_AVAILABLE S3_AVAILABLE env
        (length resume_files_data) resume_files_data job_description user_id
        0 w in
    (Response (add_batch Batch.empty_results batch_results) processed now
       user_id, w).
Proof.
  unfold process_resume_batch, range.
  rewrite batches_are_one_pass by lia. rewrite skipn_O.
  by destruct (process_batch _ _ env (length resume_files_data)
                 resume_files_data job_description user_id 0 w)
    as [[rs p] w'].
Qed.

(** X22: The task never fails on a resume: whatever the resumes are and
    whatever goes wrong with them, it returns one record per resume, the
    count [total_processed] is the number of resumes, the records carry the
    ids [resume_0] ... [resume_{N-1}], each once, and every record sits in
    the list its score dictates. *)
Theorem one_record_per_resume env resume_files_data job_description user_id
    w :
  let r := fst (process_resume_batch FIREBASE_AVAILABLE S3_AVAILABLE now env
                  resume_files_data job_description user_id w) in
  let count := length resume_files_data in
  total_processed r = count
  /\ Batch.total (data r) = count
  /\ map Batch.id (Batch.all_records (data r))
     ≡ₚ map Batch.resume_id (seq 0 count)
  /\ NoDup (map Batch.id (Batch.all_records (data r)))
  /\ Forall (BatchFacts.placed selected) (Batch.selected_list (data r))
  /\ Forall (BatchFacts.placed considered) (Batch.considered_list (data r))
  /\ Forall (BatchFacts.placed rejected) (Batch.rejected_list (data r)).
Proof.
  intros r count. subst r count. unfold process_resume_batch, range.
  rewrite batches_are_one_pass by lia. rewrite skipn_O.
  pose proof (process_batch_entries env (length resume_files_data)
                resume_files_data job_description user_id 0 w) as H.
  destruct (process_batch _ _ env (length resume_files_data) resume_files_data
              job_description user_id 0 w) as [[rs p] w'].
  cbn [fst snd data total_processed] in *. destruct H as (-> & Hid & Hpl).
  assert (map Batch.id (Batch.all_records (add_batch Batch.empty_results rs))
          ≡ₚ map Batch.resume_id (seq 0 (length resume_files_data))) as Hp.
  { rewrite add_batch_records. cbn. by rewrite map_map, Hid. }
  split; [done|]. split.
  { apply Permutation_length in Hp. rewrite !length_map, length_seq in Hp.
    rewrite <- Hp. unfold Batch.total, Batch.all_records.
    rewrite !length_app. lia. }
  split; [done|]. split.
  { rewrite Hp.
    apply (NoDup_fmap_2 Batch.resume_id (Inj0 := BatchFacts.resume_id_inj)).
    apply NoDup_seq. }
  assert (forall c, Forall (BatchFacts.placed c)
            (BatchFacts.records_of c (add_batch Batch.empty_results rs))) as H.
  { apply add_batch_placed; [|done]. intros []; constructor. }
  split; [apply (H selected)|]. split; [apply (H considered)|].
  apply (H rejected).
Qed.

End Properties.

End CeleryBatch.

(* ------------------------------------------------------------------ *)
(** ** The statistics of an owner's records (firebase_service.py) *)

Module UserStats.
Import Categorizer.

(** A document of the [resumeData] collection, as far as the statistics
    read it: the owner, and the "category" field when the document has
    one. *)
Record doc := Doc { userId : string; doc_category : option string }.


(** The body of the loop.  [stats[key] += 1] is only reached for a key the
    dictionary has. *)
Definition count (stats : gmap string nat) (d : doc) : gmap string nat :=
  let stats := alter S "total"%string stats in
  let category := default "rejected"%string (doc_category d) in
  if bool_decide (is_Some (stats !! category))
  then alter S category stats
  else stats.



















End UserStats.

(* ------------------------------------------------------------------ *)
(** ** The subject line of a generated email (send_personalized_emails) *)

Module SubjectLine.
Import PyStr PyExn.

(** [s.replace(old, new)] for a non-empty [old]: the occurrences are taken
    from the left and do not overlap; [skip] characters of an occurrence
    are still to be passed over. *)
Fixpoint replace_from (old new : str) (skip : nat) (s : str) : str :=
  match s with
  | [] => []
  | c :: s' =>
      match skip with
      | S k => replace_from old new k s'
      | O =>
          if startswith s old
          then new ++ replace_from old new (length old - 1) s'
          else c :: replace_from old new 0 s'
      end
  end.

Definition replace (old new s : str) : str := replace_from old new 0 s.

(** [l.index(x)]: the first position of [x]; [ValueError] when there is
    none. *)
Fixpoint index (x : str) (l : list str) : result nat :=
  match l with
  | [] => inl (Exn "ValueError" "x is not in list")
  | y :: l' =>
      if eqb y x then inr O
      else let! i := index x l' in ret (S i)
  end.

Definition prefix : str := lit "Subject:".
Definition default_subject : str := lit "Application Status Update".

(** The loop that looks for the subject line, over the lines still to be
    visited. *)
Fixpoint look_for_subject (lines todo : list str) (email_content : str)
  : result (str * str) :=
  match todo with
  | [] => ret (default_subject, email_content)
  | line :: todo =>
      if startswith line prefix
      then
        let subject := strip (replace prefix [] line) in
        let! i := index line lines in
        ret (subject, join [newline] (skipn (i + 1) lines))
      else look_for_subject lines todo email_content
  end.

(** The subject and the body of the message sent for [email_content]. *)
Definition subject_and_body (email_content : str) : result (str * str) :=
  let lines := split_on newline email_content in
  look_for_subject lines lines email_content.

(** A string without a line break. *)
Definition one_line (s : str) : bool :=
  forallb (fun c => negb (Ascii.eqb c newline)) s.

(** An email of three lines, the second of which is the subject line. *)
Definition an_email : str :=
  join [newline]
    [lit "Here is the email:"; lit "Subject: Interview  "; lit "Dear Jane,"].

(** *** Lines *)

Lemma split_on_cons sep c s :
  split_on sep (c :: s)
  = if Ascii.eqb c sep then [] :: split_on sep s
    else match split_on sep s with
         | l :: ls => (c :: l) :: ls
         | [] => [[c]]
         end.
Proof. reflexivity. Qed.

Lemma split_on_line sep l rest :
  forallb (fun c => negb (Ascii.eqb c sep)) l = true ->
  split_on sep (l ++ sep :: rest) = l :: split_on sep rest.
Proof.
  induction l as [|c l IH]; intros H.
  - cbn [app]. rewrite split_on_cons. by rewrite Ascii.eqb_refl.
  - cbn [forallb] in H. apply andb_true_iff in H as [Hc Hl].
    cbn [app]. rewrite split_on_cons, (IH Hl).
    by destruct (Ascii.eqb c sep).
Qed.

Lemma split_on_last sep l :
  forallb (fun c => negb (Ascii.eqb c sep)) l = true ->
  split_on sep l = [l].
Proof.
  induction l as [|c l IH]; intros H; [done|].
  cbn [forallb] in H. apply andb_true_iff in H as [Hc Hl].
  rewrite split_on_cons, (IH Hl). by destruct (Ascii.eqb c sep).
Qed.

(** Joining lines and splitting again gives the lines back. *)
Lemma split_on_join sep l ls :
  forallb (forallb (fun c => negb (Ascii.eqb c sep))) (l :: ls) = true ->
  split_on sep (join [sep] (l :: ls)) = l :: ls.
Proof.
  revert l. induction ls as [|l' ls IH]; intros l H.
  - cbn [join]. cbn [forallb] in H. apply andb_true_iff in H as [H _].
    by apply split_on_last.
  - cbn [forallb] in H. apply andb_true_iff in H as [Hl H].
    change (join [sep] (l :: l' :: ls)) with (l ++ sep :: join [sep] (l' :: ls)).
    rewrite split_on_line by done. f_equal. by apply IH.
Qed.

(** *** Replacing *)

Lemma replace_from_absent old new s :
  contains s old = false -> replace_from old new 0 s = s.
Proof.
  induction s as [|c s IH]; intros H; [done|].
  cbn [contains] in H. apply orb_false_iff in H as [H1 H2].
  cbn [replace_from]. rewrite H1. f_equal. by apply IH.
Qed.

Lemma replace_from_skip old new p : forall s,
  replace_from old new (length p) (p ++ s) = replace_from old new 0 s.
Proof.
  induction p as [|c p IH]; intros s; [done|].
  cbn [length app replace_from]. apply IH.
Qed.

Lemma startswith_app p s : startswith (p ++ s) p = true.
Proof.
  induction p as [|c p IH]; [by destruct s|].
  cbn [app startswith]. by rewrite Ascii.eqb_refl.
Qed.

Lemma replace_prefix rest :
  contains rest prefix = false -> replace prefix [] (prefix ++ rest) = rest.
Proof.
  intros H. unfold replace.
  change (prefix ++ rest)
    with ("S"%char :: (lit "ubject:" ++ rest)).
  cbn [replace_from].
  change ("S"%char :: (lit "ubject:" ++ rest)) with (prefix ++ rest).
  rewrite startswith_app. cbn [app].
  change (length prefix - 1)%nat with (length (lit "ubject:")).
  rewrite replace_from_skip. by apply replace_from_absent.
Qed.

(** *** The loop *)

Lemma index_first line pre post :
  Forall (fun l => startswith l prefix = false) pre ->
  startswith line prefix = true ->
  index line (pre ++ line :: post) = inr (length pre).
Proof.
  intros Hpre Hline. induction Hpre as [|l pre Hl Hpre IH]; cbn [app index].
  - unfold eqb. by rewrite bool_decide_eq_true_2.
  - unfold eqb. rewrite bool_decide_eq_false_2 by congruence.
    by rewrite IH.
Qed.

Lemma look_for_subject_found lines pre line post email_content :
  Forall (fun l => startswith l prefix = false) pre ->
  startswith line prefix = true ->
  forall i,
    index line lines = inr i ->
    look_for_subject lines (pre ++ line :: post) email_content
    = inr (strip (replace prefix [] line),
           join [newline] (skipn (i + 1) lines)).
Proof.
  intros Hpre Hline i Hi.
  induction Hpre as [|l pre Hl Hpre IH]; cbn [app look_for_subject].
  - by rewrite Hline, Hi.
  - by rewrite Hl.
Qed.

Lemma look_for_subject_none lines todo email_content :
  Forall (fun l => startswith l prefix = false) todo ->
  look_for_subject lines todo email_content
  = inr (default_subject, email_content).
Proof.
  induction 1 as [|l todo Hl Htodo IH]; cbn [look_for_subject]; [done|].
  by rewrite Hl.
Qed.

(** X25: When the first line that starts with "Subject:" reads "Subject:" and
    then a text without that word, the subject of the message is that text
    without the white space around it, and the body is what follows the
    line: the subject line itself and every line above it are left out of
    the body.  The search never fails. *)
Theorem subject_line_is_cut_out pre rest post :
  Forall (fun l => startswith l prefix = false) pre ->
  forallb one_line (pre ++ (prefix ++ rest) :: post) = true ->
  contains rest prefix = false ->
  subject_and_body (join [newline] (pre ++ (prefix ++ rest) :: post))
  = inr (strip rest, join [newline] post).
Proof.
  intros Hpre Hlines Hrest. unfold subject_and_body.
  assert (split_on newline (join [newline] (pre ++ (prefix ++ rest) :: post))
          = pre ++ (prefix ++ rest) :: post) as ->.
  { destruct pre as [|l pre]; by apply split_on_join. }
  rewrite (look_for_subject_found _ pre (prefix ++ rest) post _ Hpre
             (startswith_app _ _) (length pre)
             (index_first _ pre post Hpre (startswith_app _ _))).
  rewrite replace_prefix by done.
  replace (length pre + 1)%nat with (length (pre ++ [prefix ++ rest]))
    by (rewrite length_app; cbn; lia).
  rewrite (cons_middle _ pre post), app_assoc. by rewrite drop_app_length.
Qed.

(** X26: When no line starts with "Subject:", the subject is "Application
    Status Update" and the body is the whole text, unchanged. *)
Theorem no_subject_line email_content :
  Forall (fun l => startswith l prefix = false)
         (split_on newline email_content) ->
  subject_and_body email_content = inr (default_subject, email_content).
Proof. intros H. by apply look_for_subject_none. Qed.

(** *** Witnesses *)

Lemma subject_line_is_cut_out_witness :
  subject_and_body an_email = inr (lit "Interview", lit "Dear Jane,").
Proof.
  apply (subject_line_is_cut_out [lit "Here is the email:"]
           (lit " Interview  ") [lit "Dear Jane,"]).
  - repeat constructor.
  - reflexivity.
  - reflexivity.
Defined.

Lemma no_subject_line_witness :
  subject_and_body (lit "Dear Jane,")
  = inr (default_subject, lit "Dear Jane,").
Proof.
  apply (no_subject_line (lit "Dear Jane,")). repeat constructor.
Defined.

End SubjectLine.
